(** * tanke-game: a shallow embedding of [src/game.js]

    The game is a single frame-driven loop over a player tank, a roster of
    enemy tanks, a list of bullets and a list of cosmetic particles.

    Conventions of the embedding.
    - JavaScript numbers that carry geometry (positions, angles, timers) are
      modelled as real numbers [R]; [Math.cos], [Math.sin], [Math.hypot] and
      [Math.atan2] are the real functions.  Rounding is not modelled.
    - The integer-valued counters [score] and [lives] are modelled as [Z].
    - [canvas.width] and [canvas.height] come from the page, which is not part
      of the sources; they are the parameters [WIDTH] and [HEIGHT].
    - [Math.random] is a global generator; it is modelled as a fixed sequence
      [random : nat -> R] together with a counter of the draws made so far.
    - Objects mutated in place inside [forEach] are modelled by loops that
      rebuild the array element by element while threading the game state. *)

From Stdlib Require Import String.
From Stdlib Require Import Reals Lra Lia ZArith List Bool.
Import ListNotations.

Open Scope R_scope.

(** ** Numbers *)

Definition Rltb (a b : R) : bool := if Rlt_dec a b then true else false.
Definition Rleb (a b : R) : bool := if Rle_dec a b then true else false.

Definition Rneqb (a b : R) : bool := if Req_dec_T a b then false else true.

Definition hypot (a b : R) : R := sqrt (a * a + b * b).

(** [Math.atan2 y x], by quadrant. *)
Definition atan2 (y x : R) : R :=
  if Rltb 0 x then atan (y / x)
  else if Rltb x 0 then
    (if Rleb 0 y then atan (y / x) + PI else atan (y / x) - PI)
  else if Rltb 0 y then PI / 2
  else if Rltb y 0 then - (PI / 2)
  else 0.

Definition PLAYER_SPEED : R := 2.6.
Definition BULLET_SPEED : R := 6.
Definition ENEMY_SPEED : R := 1.8.
Definition ENEMY_COUNT : nat := 5.
Definition PLAYER_MAX_LIVES : Z := 3.

(** [clamp(value, min, max)] is [Math.min(Math.max(value, min), max)]. *)
Definition clamp (value lo hi : R) : R := Rmin (Rmax value lo) hi.

(** ** Input: the set of held key codes *)

Module Input.

Definition t := list string.

Definition pressed (keys : t) (code : string) : bool :=
  existsb (String.eqb code) keys.

(** [Set.add]: a code already held is not added twice. *)
Definition keydown (keys : t) (code : string) : t :=
  if pressed keys code then keys else keys ++ [code].

(** [Set.delete]. *)
Definition keyup (keys : t) (code : string) : t :=
  filter (fun k => negb (String.eqb code k)) keys.

End Input.

(** ** Bullet *)

Module Bullet.

Record t := mk {
  x : R;
  y : R;
  dir : R;
  owner : string;
  size : R;
  speed : R;
  active : bool
}.

Definition new (x0 y0 dir0 : R) (owner0 : string) : t :=
  mk x0 y0 dir0 owner0 6 BULLET_SPEED true.

Definition deactivate (b : t) : t :=
  mk (x b) (y b) (dir b) (owner b) (size b) (speed b) false.

Section Canvas.
Variables WIDTH HEIGHT : R.

(** The bound test of [Bullet.update], on a position. *)
Definition outside (px py : R) : bool :=
  Rltb px (-10) || Rltb (WIDTH + 10) px
  || Rltb py (-10) || Rltb (HEIGHT + 10) py.

Definition update (b : t) : t :=
  let x1 := x b + cos (dir b) * speed b in
  let y1 := y b + sin (dir b) * speed b in
  mk x1 y1 (dir b) (owner b) (size b) (speed b)
     (if outside x1 y1 then false else active b).
End Canvas.

End Bullet.

(** ** Tank *)

Module Tank.

Record t := mk {
  x : R;
  y : R;
  angle : R;
  size : R;
  color : string;
  isPlayer : bool;
  cooldown : R;
  speed : R;
  targetDirTimer : R
}.

Definition new (x0 y0 : R) (color0 : string) (isPlayer0 : bool) : t :=
  mk x0 y0 0 36 color0 isPlayer0 0
     (if isPlayer0 then PLAYER_SPEED else ENEMY_SPEED) 0.

Definition set_x (v : R) (k : t) : t :=
  mk v (y k) (angle k) (size k) (color k) (isPlayer k) (cooldown k)
     (speed k) (targetDirTimer k).
Definition set_y (v : R) (k : t) : t :=
  mk (x k) v (angle k) (size k) (color k) (isPlayer k) (cooldown k)
     (speed k) (targetDirTimer k).
Definition set_angle (v : R) (k : t) : t :=
  mk (x k) (y k) v (size k) (color k) (isPlayer k) (cooldown k)
     (speed k) (targetDirTimer k).
Definition set_cooldown (v : R) (k : t) : t :=
  mk (x k) (y k) (angle k) (size k) (color k) (isPlayer k) v
     (speed k) (targetDirTimer k).
Definition set_targetDirTimer (v : R) (k : t) : t :=
  mk (x k) (y k) (angle k) (size k) (color k) (isPlayer k) (cooldown k)
     (speed k) v.

(** The net direction read from the four arrow keys, before it is
    normalised (lines 94 to 99). *)
Definition keyDy (input : Input.t) : R :=
  let dy := 0 in
  let dy := if Input.pressed input "ArrowUp" then dy - 1 else dy in
  if Input.pressed input "ArrowDown" then dy + 1 else dy.
Definition keyDx (input : Input.t) : R :=
  let dx := 0 in
  let dx := if Input.pressed input "ArrowLeft" then dx - 1 else dx in
  if Input.pressed input "ArrowRight" then dx + 1 else dx.

Definition handlePlayerInput (input : Input.t) (k : t) : t :=
  let dx := keyDx input in
  let dy := keyDy input in
  if Rneqb dx 0 || Rneqb dy 0 then
    let len := hypot dx dy in
    let dx := dx / len in
    let dy := dy / len in
    set_angle (atan2 dy dx)
      (set_y (y k + dy * speed k) (set_x (x k + dx * speed k) k))
  else k.

Section World.
Variables WIDTH HEIGHT : R.
Variable random : nat -> R.

(** [handleAI]; [n] counts the draws of [Math.random] made so far. *)
Definition handleAI (dt : R) (k : t) (n : nat) : t * nat :=
  let k := set_targetDirTimer (targetDirTimer k - dt) k in
  let '(k, n) :=
    if Rleb (targetDirTimer k) 0 then
      let k := set_targetDirTimer (120 + random n * 120) k in
      let dx := random (n + 1) * 2 - 1 in
      let dy := random (n + 2) * 2 - 1 in
      (set_angle (atan2 dy dx) k, (n + 3)%nat)
    else (k, n) in
  let k := set_x (x k + cos (angle k) * speed k * 0.8) k in
  let k := set_y (y k + sin (angle k) * speed k * 0.8) k in
  if Rltb (random n) 0.01
  then (set_angle (angle k + PI / 2) k, S n)
  else (k, S n).

Definition update (dt : R) (input : Input.t) (k : t) (n : nat) : t * nat :=
  let '(k, n) :=
    if isPlayer k then (handlePlayerInput input k, n)
    else handleAI dt k n in
  let k := set_cooldown (Rmax 0 (cooldown k - dt)) k in
  let k := set_x (clamp (x k) (size k / 2) (WIDTH - size k / 2)) k in
  let k := set_y (clamp (y k) (size k / 2) (HEIGHT - size k / 2)) k in
  (k, n).

(** [tryShoot(bullets, owner)]: the bullet list is returned extended. *)
Definition tryShoot (bullets : list Bullet.t) (owner : string) (k : t)
  : t * list Bullet.t :=
  if Rltb 0 (cooldown k) then (k, bullets)
  else
    let bx := x k + cos (angle k) * size k * 0.7 in
    let by_ := y k + sin (angle k) * size k * 0.7 in
    (set_cooldown 40 k, bullets ++ [Bullet.new bx by_ (angle k) owner]).
End World.

End Tank.

(** ** Particle: the object literal pushed by [addParticles] *)

Module Particle.

Record t := mk {
  x : R;
  y : R;
  vx : R;
  vy : R;
  life : R;
  color : string
}.

(** One step of the [forEach] in [updateParticles]. *)
Definition advance (p : t) : t :=
  mk (x p + vx p) (y p + vy p) (vx p) (vy p) (life p - 1) (color p).

End Particle.

(** ** Game *)

Module Game.

(** The five texts written to the status element. *)
Inductive Status := Idle | Fighting | Paused | Rammed | Defeated.

Record t := mk {
  input : Input.t;
  player : Tank.t;
  enemies : list Tank.t;
  bullets : list Bullet.t;
  particles : list Particle.t;
  score : Z;
  lives : Z;
  running : bool;
  lastTime : R;
  (* the page: status text and the two HUD numbers *)
  statusText : Status;
  scoreText : Z;
  livesText : Z;
  (* draws of [Math.random] made so far *)
  rng : nat
}.

Definition set_input v g :=
  mk v (player g) (enemies g) (bullets g) (particles g) (score g) (lives g)
     (running g) (lastTime g) (statusText g) (scoreText g) (livesText g)
     (rng g).
Definition set_player v g :=
  mk (input g) v (enemies g) (bullets g) (particles g) (score g) (lives g)
     (running g) (lastTime g) (statusText g) (scoreText g) (livesText g)
     (rng g).
Definition set_enemies v g :=
  mk (input g) (player g) v (bullets g) (particles g) (score g) (lives g)
     (running g) (lastTime g) (statusText g) (scoreText g) (livesText g)
     (rng g).
Definition set_bullets v g :=
  mk (input g) (player g) (enemies g) v (particles g) (score g) (lives g)
     (running g) (lastTime g) (statusText g) (scoreText g) (livesText g)
     (rng g).
Definition set_particles v g :=
  mk (input g) (player g) (enemies g) (bullets g) v (score g) (lives g)
     (running g) (lastTime g) (statusText g) (scoreText g) (livesText g)
     (rng g).
Definition set_score v g :=
  mk (input g) (player g) (enemies g) (bullets g) (particles g) v (lives g)
     (running g) (lastTime g) (statusText g) (scoreText g) (livesText g)
     (rng g).
Definition set_lives v g :=
  mk (input g) (player g) (enemies g) (bullets g) (particles g) (score g) v
     (running g) (lastTime g) (statusText g) (scoreText g) (livesText g)
     (rng g).
Definition set_running v g :=
  mk (input g) (player g) (enemies g) (bullets g) (particles g) (score g)
     (lives g) v (lastTime g) (statusText g) (scoreText g) (livesText g)
     (rng g).
Definition set_lastTime v g :=
  mk (input g) (player g) (enemies g) (bullets g) (particles g) (score g)
     (lives g) (running g) v (statusText g) (scoreText g) (livesText g)
     (rng g).
Definition set_statusText v g :=
  mk (input g) (player g) (enemies g) (bullets g) (particles g) (score g)
     (lives g) (running g) (lastTime g) v (scoreText g) (livesText g)
     (rng g).
Definition set_rng v g :=
  mk (input g) (player g) (enemies g) (bullets g) (particles g) (score g)
     (lives g) (running g) (lastTime g) (statusText g) (scoreText g)
     (livesText g) v.

Definition syncHUD (g : t) : t :=
  mk (input g) (player g) (enemies g) (bullets g) (particles g) (score g)
     (lives g) (running g) (lastTime g) (statusText g) (score g) (lives g)
     (rng g).

Definition start (g : t) : t := set_statusText Fighting (set_running true g).

Definition togglePause (g : t) : t :=
  let g := set_running (negb (running g)) g in
  set_statusText (if running g then Fighting else Paused) g.

Definition gameOver (g : t) : t :=
  set_statusText Defeated (set_running false g).

Definition updateParticles (g : t) : t :=
  set_particles
    (filter (fun p => Rltb 0 (Particle.life p))
            (map Particle.advance (particles g))) g.

(** Only [updateParticles] changes the state in [draw]. *)
Definition draw (g : t) : t := updateParticles g.

Section World.
Variables WIDTH HEIGHT : R.
Variable random : nat -> R.

(** The body of the loop of [addParticles], [i] rounds remaining. *)
Fixpoint addParticlesLoop (i : nat) (px py : R) (color : string)
         (ps : list Particle.t) (n : nat) : list Particle.t * nat :=
  match i with
  | O => (ps, n)
  | S i' =>
      let p := Particle.mk px py
                 ((random n * 2 - 1) * 2)
                 ((random (n + 1) * 2 - 1) * 2)
                 (30 + random (n + 2) * 20)
                 color in
      addParticlesLoop i' px py color (ps ++ [p]) (n + 3)
  end.

Definition addParticles (px py : R) (color : string) (g : t) : t :=
  let '(ps, n) := addParticlesLoop 10 px py color (particles g) (rng g) in
  set_rng n (set_particles ps g).

(** The loop of [spawnEnemies], [i] rounds remaining. *)
Fixpoint spawnLoop (i : nat) (es : list Tank.t) (n : nat)
  : list Tank.t * nat :=
  match i with
  | O => (es, n)
  | S i' =>
      let ex := 60 + random n * (WIDTH - 120) in
      let ey := 60 + random (n + 1) * (HEIGHT / 2 - 60) in
      let enemy := Tank.new ex ey "#ffb347" false in
      let enemy := Tank.set_angle (random (n + 2) * PI * 2) enemy in
      spawnLoop i' (es ++ [enemy]) (n + 3)
  end.

Definition spawnEnemies (g : t) : t :=
  let '(es, n) := spawnLoop ENEMY_COUNT [] (rng g) in
  set_rng n (set_enemies es g).

Definition newPlayer : Tank.t :=
  Tank.new (WIDTH / 2) (HEIGHT - 80) "#5ec8ff" true.

Definition reset (g : t) : t :=
  let g := set_player newPlayer g in
  let g := set_bullets [] g in
  let g := set_particles [] g in
  let g := set_score 0%Z g in
  let g := set_lives PLAYER_MAX_LIVES g in
  let g := spawnEnemies g in
  let g := set_running false g in
  let g := set_statusText Idle g in
  syncHUD g.

(** The state built by the constructor, before any event. *)
Definition new : t :=
  syncHUD
    (spawnEnemies
       (mk [] newPlayer [] [] [] 0%Z PLAYER_MAX_LIVES false 0
           Idle 0%Z 0%Z O)).

(** The player is put back on the spawn point (lines 293-294, 323-324). *)
Definition respawnPlayer (g : t) : t :=
  set_player
    (Tank.set_y (HEIGHT - 80) (Tank.set_x (WIDTH / 2) (player g))) g.

(** *** [update]: movement (lines 256 to 265) *)

(** One round of the [forEach] over the enemies in [update]: the enemy moves,
    then shoots with probability 0.01. *)
Definition enemyTurn (dt : R) (e : Tank.t) (g : t) : Tank.t * t :=
  let '(e, n) := Tank.update WIDTH HEIGHT random dt (input g) e (rng g) in
  let g := set_rng (S n) g in
  if Rltb (random n) 0.01 then
    let '(e, bs) := Tank.tryShoot (bullets g) "enemy" e in
    (e, set_bullets bs g)
  else (e, g).

Fixpoint enemiesLoop (dt : R) (es : list Tank.t) (g : t) : list Tank.t * t :=
  match es with
  | [] => ([], g)
  | e :: rest =>
      let '(e, g) := enemyTurn dt e g in
      let '(rest, g) := enemiesLoop dt rest g in
      (e :: rest, g)
  end.

(** [update] up to the call of [handleCollisions]. *)
Definition movePhase (dt : R) (g : t) : t :=
  let '(p, n) :=
    Tank.update WIDTH HEIGHT random dt (input g) (player g) (rng g) in
  let g := set_rng n (set_player p g) in
  let '(es, g) := enemiesLoop dt (enemies g) g in
  let g := set_enemies es g in
  set_bullets (map (Bullet.update WIDTH HEIGHT) (bullets g)) g.

(** *** [handleCollisions] *)

(** The overlap test of line 279. *)
Definition ramTest (p e : Tank.t) : bool :=
  Rltb (hypot (Tank.x p - Tank.x e) (Tank.y p - Tank.y e))
       ((Tank.size p + Tank.size e) / 2).

(** The hit test of line 306. *)
Definition shotTest (b : Bullet.t) (e : Tank.t) : bool :=
  Rltb (hypot (Bullet.x b - Tank.x e) (Bullet.y b - Tank.y e))
       (Tank.size e / 2).

(** The hit test of line 316. *)
Definition woundTest (b : Bullet.t) (p : Tank.t) : bool :=
  Rltb (hypot (Bullet.x b - Tank.x p) (Bullet.y b - Tank.y p))
       (Tank.size p / 2).

(** The filter of lines 288 and 313. *)
Definition onField (e : Tank.t) : bool := Rltb 0 (Tank.x e).

(** The [forEach] of lines 277 to 286; the flag is [collided]. *)
Fixpoint ramLoop (es : list Tank.t) (g : t) (collided : bool)
  : list Tank.t * t * bool :=
  match es with
  | [] => ([], g, collided)
  | e :: rest =>
      if ramTest (player g) e then
        let g := addParticles (Tank.x e) (Tank.y e) (Tank.color e) g in
        let g := addParticles (Tank.x (player g)) (Tank.y (player g))
                              (Tank.color (player g)) g in
        let g := set_score (score g + 100)%Z g in
        let e := Tank.set_x (-9999) e in
        let '(rest, g, c) := ramLoop rest g true in
        (e :: rest, g, c)
      else
        let '(rest, g, c) := ramLoop rest g collided in
        (e :: rest, g, c)
  end.

(** Lines 289 to 296 and 319 to 325: a life is lost, then the game ends or
    the player is put back; [status] is the text written on survival. *)
Definition loseLife (status : option Status) (g : t) : t :=
  let g := set_lives (lives g - 1)%Z g in
  if (lives g <=? 0)%Z then gameOver g
  else
    let g := respawnPlayer g in
    match status with
    | Some s => set_statusText s g
    | None => g
    end.

(** Lines 276 to 297. *)
Definition ramPhase (g : t) : t :=
  let '(es, g, collided) := ramLoop (enemies g) g false in
  let g := set_enemies es g in
  if collided then
    let g := set_enemies (filter onField (enemies g)) g in
    loseLife (Some Rammed) g
  else g.

(** The inner [forEach] of lines 303 to 312, for the bullet [b]. *)
Fixpoint shotLoop (b : Bullet.t) (es : list Tank.t) (g : t)
  : Bullet.t * list Tank.t * t :=
  match es with
  | [] => (b, [], g)
  | e :: rest =>
      if negb (Bullet.active b) then
        let '(b, rest, g) := shotLoop b rest g in
        (b, e :: rest, g)
      else if shotTest b e then
        let b := Bullet.deactivate b in
        let g := set_score (score g + 100)%Z g in
        let g := addParticles (Tank.x e) (Tank.y e) (Tank.color e) g in
        let e := Tank.set_x (-9999) e in
        let '(b, rest, g) := shotLoop b rest g in
        (b, e :: rest, g)
      else
        let '(b, rest, g) := shotLoop b rest g in
        (b, e :: rest, g)
  end.

(** The body of the [forEach] of lines 300 to 328. *)
Definition bulletTurn (b : Bullet.t) (g : t) : Bullet.t * t :=
  if negb (Bullet.active b) then (b, g)
  else if String.eqb (Bullet.owner b) "player" then
    let '(b, es, g) := shotLoop b (enemies g) g in
    (b, set_enemies (filter onField es) g)
  else if String.eqb (Bullet.owner b) "enemy" then
    if woundTest b (player g) then
      let b := Bullet.deactivate b in
      let g := addParticles (Tank.x (player g)) (Tank.y (player g))
                            (Tank.color (player g)) g in
      (b, loseLife None g)
    else (b, g)
  else (b, g).

Fixpoint bulletsLoop (bs : list Bullet.t) (g : t) : list Bullet.t * t :=
  match bs with
  | [] => ([], g)
  | b :: rest =>
      let '(b, g) := bulletTurn b g in
      let '(rest, g) := bulletsLoop rest g in
      (b :: rest, g)
  end.

(** Lines 300 to 328. *)
Definition bulletPhase (g : t) : t :=
  let '(bs, g) := bulletsLoop (bullets g) g in
  set_bullets bs g.

Definition handleCollisions (g : t) : t :=
  syncHUD (bulletPhase (ramPhase g)).

(** *** [update] and [loop] *)

(** Line 267. *)
Definition pruneBullets (g : t) : t :=
  set_bullets (filter Bullet.active (bullets g)) g.

(** Lines 269 to 271. *)
Definition refill (g : t) : t :=
  match enemies g with
  | [] => spawnEnemies g
  | _ :: _ => g
  end.

Definition update (dt : R) (g : t) : t :=
  refill (pruneBullets (handleCollisions (movePhase dt g))).

Definition loop (timestamp : R) (g : t) : t :=
  let dt := timestamp - lastTime g in
  let g := set_lastTime timestamp g in
  let g := if running g then update dt g else g in
  draw g.

(** *** Events

    What the page can deliver to the game once it is constructed: key
    events (seen first by the listener of [Input], then by the one of
    [bindUI]), the clicks bound in [bindUI], the timer that starts the game
    and the animation frames. *)
Inductive Event :=
| KeyDown (code : string)
| KeyUp (code : string)
| ClickCanvas
| ClickStart
| ClickPause
| ClickReset
| AutoStart
| Frame (timestamp : R).

Definition fire (g : t) : t :=
  let '(p, bs) := Tank.tryShoot (bullets g) "player" (player g) in
  set_bullets bs (set_player p g).

Definition keydown (code : string) (g : t) : t :=
  let g := set_input (Input.keydown (input g) code) g in
  let g := if String.eqb code "Space" then fire g else g in
  if String.eqb code "KeyR" then reset g else g.

Definition step (ev : Event) (g : t) : t :=
  match ev with
  | KeyDown code => keydown code g
  | KeyUp code => set_input (Input.keyup (input g) code) g
  | ClickCanvas => start g
  | ClickStart => start g
  | ClickPause => togglePause g
  | ClickReset => reset g
  | AutoStart => start g
  | Frame timestamp => loop timestamp g
  end.

Definition run (evs : list Event) (g : t) : t :=
  fold_left (fun g ev => step ev g) evs g.

End World.

End Game.


(** ** Concrete scenes

    An 800 by 600 canvas and a generator that always draws one half, on which
    the theorems below are instantiated. *)

Module Scene.

Definition W : R := 800.
Definition H : R := 600.
Definition half (_ : nat) : R := 1 / 2.

(** The player on its spawn point. *)
Definition hero : Tank.t := Game.newPlayer W H.

(** An enemy in the upper left corner, heading right, its timer far from
    expiry. *)
Definition scout : Tank.t :=
  Tank.mk 100 100 0 36 "#ffb347" false 0 ENEMY_SPEED 100.

(** Two enemy bullets one step away from the spawn point, flying right. *)
Definition shell : Bullet.t := Bullet.mk 394 520 0 "enemy" 6 BULLET_SPEED true.
Definition shell' : Bullet.t :=
  Bullet.mk 390 524 0 "enemy" 6 BULLET_SPEED true.

(** A running game with [l] lives: the player on its spawn point, one enemy
    far away, two enemy bullets about to reach the player. *)
Definition duel (l : Z) : Game.t :=
  Game.mk [] hero [scout] [shell; shell'] [] 0%Z l true 0
          Game.Fighting 0%Z l O.

(** A game that has ended: no lives, not running, the up key held. *)
Definition defeated : Game.t :=
  Game.mk ["ArrowUp"%string] hero [scout] [] [] 0%Z 0%Z false 0
          Game.Defeated 0%Z 0%Z O.

(** A paused game with an enemy on top of the player and a player bullet
    on a second enemy. *)
Definition melee : Game.t :=
  Game.mk [] hero
          [Tank.mk 410 520 0 36 "#ffb347" false 0 ENEMY_SPEED 100; scout]
          [Bullet.mk 100 100 0 "player" 6 BULLET_SPEED true] [] 0%Z 3%Z
          false 0 Game.Paused 0%Z 3%Z O.

End Scene.


(** ** Vocabulary of the statements *)

(** The bullets of owner [who] that one pass has used up: active in the
    array before the pass and inactive, at the same index, after it. *)
Fixpoint spent (who : string) (before after : list Bullet.t) : nat :=
  match before, after with
  | b :: bs, b' :: bs' =>
      ((if Bullet.active b && negb (Bullet.active b')
           && String.eqb (Bullet.owner b) who
        then 1 else 0) + spent who bs bs')%nat
  | _, _ => O
  end.

(** The active bullets of owner [who]. *)
Definition loaded (who : string) (bs : list Bullet.t) : nat :=
  length (filter (fun b => Bullet.active b && String.eqb (Bullet.owner b) who)
                 bs).

(** The enemies that overlap the tank [p]. *)
Definition rams (p : Tank.t) (es : list Tank.t) : nat :=
  length (filter (Game.ramTest p) es).

(** The player bullet [b], examined in state [g], hits an enemy. *)
Definition shotLands (b : Bullet.t) (g : Game.t) : bool :=
  Bullet.active b && String.eqb (Bullet.owner b) "player"
  && existsb (Game.shotTest b) (Game.enemies g).

(** The enemy bullet [b], examined in state [g], hits the player. *)
Definition woundLands (b : Bullet.t) (g : Game.t) : bool :=
  Bullet.active b && String.eqb (Bullet.owner b) "enemy"
  && Game.woundTest b (Game.player g).

(** From [g] to [g'] either no life was lost and [running] is as it was, or
    lives were lost and [running] was cleared if they reached zero. *)
Definition hurt (g g' : Game.t) : Prop :=
  (Game.lives g' = Game.lives g /\ Game.running g' = Game.running g)
  \/ ((Game.lives g' < Game.lives g)%Z
      /\ Game.running g'
         = if (Game.lives g' <=? 0)%Z then false else Game.running g).

(** Whether an event calls [reset]. *)
Definition resets (ev : Game.Event) : bool :=
  match ev with
  | Game.ClickReset => true
  | Game.KeyDown code => String.eqb code "KeyR"
  | _ => false
  end.

(** Whether an event calls [start] or [togglePause]. *)
Definition resumes (ev : Game.Event) : bool :=
  match ev with
  | Game.ClickCanvas | Game.ClickStart | Game.ClickPause | Game.AutoStart =>
      true
  | _ => false
  end.

(** [Math.random] draws from [0, 1). *)
Definition fair (random : nat -> R) : Prop := forall n, 0 <= random n < 1.

(** The whole sprite of the tank [k] is on a canvas of the given size. *)
Definition inField (WIDTH HEIGHT : R) (k : Tank.t) : Prop :=
  Tank.size k / 2 <= Tank.x k <= WIDTH - Tank.size k / 2
  /\ Tank.size k / 2 <= Tank.y k <= HEIGHT - Tank.size k / 2.

(** The bullet [b] after [n] calls of [Bullet.update]. *)
Fixpoint flight (WIDTH HEIGHT : R) (n : nat) (b : Bullet.t) : Bullet.t :=
  match n with
  | O => b
  | S m => Bullet.update WIDTH HEIGHT (flight WIDTH HEIGHT m b)
  end.

(** The state after [n] calls of [draw]. *)
Fixpoint redraw (n : nat) (g : Game.t) : Game.t :=
  match n with
  | O => g
  | S m => Game.draw (redraw m g)
  end.

(** An enemy as [spawnEnemies] makes it: in the upper half of the canvas,
    60 away from its left, right and upper sides. *)
Definition freshEnemy (WIDTH HEIGHT : R) (e : Tank.t) : Prop :=
  Tank.isPlayer e = false /\ Tank.size e = 36
  /\ Tank.speed e = ENEMY_SPEED /\ Tank.cooldown e = 0
  /\ Tank.targetDirTimer e = 0
  /\ 60 <= Tank.x e <= WIDTH - 60 /\ 60 <= Tank.y e <= HEIGHT / 2.

(** A particle of a burst at [(px, py)]. *)
Definition spark (px py : R) (color : string) (p : Particle.t) : Prop :=
  Particle.x p = px /\ Particle.y p = py /\ Particle.color p = color
  /\ 30 <= Particle.life p < 50
  /\ -2 <= Particle.vx p < 2 /\ -2 <= Particle.vy p < 2.

(** The particle [p] after [n] frames. *)
Definition age (n : nat) (p : Particle.t) : Particle.t :=
  Particle.mk (Particle.x p + INR n * Particle.vx p)
              (Particle.y p + INR n * Particle.vy p)
              (Particle.vx p) (Particle.vy p)
              (Particle.life p - INR n) (Particle.color p).

(** What [Tank.update] does to a tank: its kind is kept, its cooldown is
    not negative and its position is clamped to the field. *)
Definition steered (WIDTH HEIGHT : R) (k k' : Tank.t) : Prop :=
  Tank.isPlayer k' = Tank.isPlayer k /\ Tank.size k' = Tank.size k
  /\ Tank.speed k' = Tank.speed k /\ 0 <= Tank.cooldown k'
  /\ exists u v,
       Tank.x k' = clamp u (Tank.size k / 2) (WIDTH - Tank.size k / 2)
       /\ Tank.y k' = clamp v (Tank.size k / 2) (HEIGHT - Tank.size k / 2).

(** The player of [g'] is the player of [g], left in place or put back on
    the spawn point. *)
Definition pilot (WIDTH HEIGHT : R) (g g' : Game.t) : Prop :=
  Game.player g' = Game.player g
  \/ Game.player g'
     = Tank.set_y (HEIGHT - 80) (Tank.set_x (WIDTH / 2) (Game.player g)).

Definition playerKind (k : Tank.t) : Prop :=
  Tank.isPlayer k = true /\ Tank.size k = 36
  /\ Tank.speed k = PLAYER_SPEED /\ 0 <= Tank.cooldown k.

Definition enemyKind (e : Tank.t) : Prop :=
  Tank.isPlayer e = false /\ Tank.size e = 36
  /\ Tank.speed e = ENEMY_SPEED /\ 0 <= Tank.cooldown e.

(** A bullet as the constructor makes it, for one of the two owners. *)
Definition round (b : Bullet.t) : Prop :=
  (Bullet.owner b = "player"%string \/ Bullet.owner b = "enemy"%string)
  /\ Bullet.speed b = BULLET_SPEED /\ Bullet.size b = 6.

(** What holds of the entities at every point of a frame. *)
Definition core (g : Game.t) : Prop :=
  (exists k : nat, Game.score g = (100 * Z.of_nat k)%Z)
  /\ (Game.lives g <= 3)%Z
  /\ (length (Game.enemies g) <= 5)%nat
  /\ Forall round (Game.bullets g)
  /\ playerKind (Game.player g)
  /\ Forall enemyKind (Game.enemies g).

(** What holds between two events. *)
Definition sound (g : Game.t) : Prop :=
  core g
  /\ (1 <= length (Game.enemies g))%nat
  /\ Forall (fun b => Bullet.active b = true) (Game.bullets g)
  /\ Game.scoreText g = Game.score g /\ Game.livesText g = Game.lives g.

(** Every tank is on the field. *)
Definition placed (WIDTH HEIGHT : R) (g : Game.t) : Prop :=
  inField WIDTH HEIGHT (Game.player g)
  /\ Forall (inField WIDTH HEIGHT) (Game.enemies g).

(** The tank [p] put back on the spawn point (lines 293-294, 323-324). *)
Definition respawned (WIDTH HEIGHT : R) (p : Tank.t) : Tank.t :=
  Tank.set_y (HEIGHT - 80) (Tank.set_x (WIDTH / 2) p).

(** The bullet [b] is an active enemy bullet that passes the hit test of
    line 316 against the player [p]. *)
Definition woundable (b : Bullet.t) (p : Tank.t) : bool :=
  Bullet.active b && String.eqb (Bullet.owner b) "enemy"
  && Game.woundTest b p.

(** The player [p] after the loss of a life that leaves [lives] lives
    (lines 288 to 296 and 318 to 326): on the spawn point again if lives
    are left, where it was if the game is over. *)
Definition afterLoss (WIDTH HEIGHT : R) (p : Tank.t) (lives : Z) : Tank.t :=
  if (lives <=? 0)%Z then p else respawned WIDTH HEIGHT p.

(** The lives that the bullets [bs], scanned in order, take from a player
    [p] with [lives] lives: each active enemy bullet that passes the hit
    test against the player as the scan has left it takes one. *)
Fixpoint wounds (WIDTH HEIGHT : R) (p : Tank.t) (lives : Z)
         (bs : list Bullet.t) : nat :=
  match bs with
  | [] => O
  | b :: rest =>
      if woundable b p then
        S (wounds WIDTH HEIGHT (afterLoss WIDTH HEIGHT p (lives - 1))
                  (lives - 1) rest)
      else wounds WIDTH HEIGHT p lives rest
  end.


(** The list without its first element that satisfies [f]. *)
Fixpoint dropFirst {A : Type} (f : A -> bool) (l : list A) : list A :=
  match l with
  | [] => []
  | a :: rest => if f a then rest else a :: dropFirst f rest
  end.

(** The roster left by the bullets [bs], scanned in order: each active
    player bullet removes the first enemy in its reach. *)
Definition volley (bs : list Bullet.t) (es : list Tank.t) : list Tank.t :=
  fold_left
    (fun es b =>
       if Bullet.active b && String.eqb (Bullet.owner b) "player"
       then dropFirst (Game.shotTest b) es else es)
    bs es.

(** The bullet list after an event, in terms of the calls it makes. *)
Definition bulletsAfter (WIDTH HEIGHT : R) (random : nat -> R)
           (ev : Game.Event) (g : Game.t) : list Bullet.t :=
  match ev with
  | Game.KeyDown code =>
      if String.eqb code "KeyR" then []
      else if String.eqb code "Space"
      then snd (Tank.tryShoot (Game.bullets g) "player" (Game.player g))
      else Game.bullets g
  | Game.ClickReset => []
  | Game.Frame t =>
      if Game.running g
      then filter Bullet.active
             (Game.bullets
                (Game.handleCollisions WIDTH HEIGHT random
                   (Game.movePhase WIDTH HEIGHT random (t - Game.lastTime g)
                      (Game.set_lastTime t g))))
      else Game.bullets g
  | _ => Game.bullets g
  end.


(** * Properties *)

(** ** Deciding comparisons on reals *)

Lemma Rltb_true a b : a < b -> Rltb a b = true.
Proof.
  intros H; unfold Rltb; destruct (Rlt_dec a b); [reflexivity | contradiction].
Qed.

Lemma Rltb_false a b : b <= a -> Rltb a b = false.
Proof. intros H; unfold Rltb; destruct (Rlt_dec a b); [lra | reflexivity]. Qed.

Lemma Rltb_spec a b : Rltb a b = true <-> a < b.
Proof.
  unfold Rltb; destruct (Rlt_dec a b); split; intros; try assumption;
    try reflexivity; try discriminate; contradiction.
Qed.

Lemma Rleb_true a b : a <= b -> Rleb a b = true.
Proof.
  intros H; unfold Rleb; destruct (Rle_dec a b); [reflexivity | contradiction].
Qed.

Lemma Rleb_false a b : b < a -> Rleb a b = false.
Proof. intros H; unfold Rleb; destruct (Rle_dec a b); [lra | reflexivity]. Qed.

Lemma Rneqb_true a b : a <> b -> Rneqb a b = true.
Proof.
  intros H; unfold Rneqb; destruct (Req_dec_T a b);
    [contradiction | reflexivity].
Qed.

Lemma Rneqb_false a b : a = b -> Rneqb a b = false.
Proof.
  intros H; unfold Rneqb; destruct (Req_dec_T a b);
    [reflexivity | contradiction].
Qed.

Lemma hypot_lt_iff a b r :
  0 < r -> (hypot a b < r <-> a * a + b * b < r * r).
Proof.
  intros Hr. unfold hypot.
  assert (H0 : 0 <= a * a + b * b) by nra.
  rewrite <- (sqrt_square r) at 1 by lra.
  split; intros H.
  - apply sqrt_lt_0_alt in H. exact H.
  - apply sqrt_lt_1_alt. split; assumption.
Qed.

Lemma hypot_ltb_true a b r :
  0 < r -> a * a + b * b < r * r -> Rltb (hypot a b) r = true.
Proof. intros Hr H. apply Rltb_true, hypot_lt_iff; assumption. Qed.

Lemma hypot_ltb_false a b r :
  0 < r -> r * r <= a * a + b * b -> Rltb (hypot a b) r = false.
Proof.
  intros Hr H. apply Rltb_false.
  destruct (Rle_or_lt r (hypot a b)) as [Hle | Hlt]; [exact Hle |].
  apply hypot_lt_iff in Hlt; lra.
Qed.

Lemma hypot_unit a b : a * a + b * b = 1 -> hypot a b = 1.
Proof. intros H. unfold hypot. rewrite H. apply sqrt_1. Qed.

(** A vector scaled to length [s] has length [s]. *)
Lemma hypot_normalised dx dy s :
  dx <> 0 \/ dy <> 0 -> 0 <= s ->
  hypot (dx / hypot dx dy * s) (dy / hypot dx dy * s) = s.
Proof.
  intros Hd Hs.
  assert (Hpos : 0 < dx * dx + dy * dy) by (destruct Hd; nra).
  assert (Hlen : 0 < hypot dx dy) by (apply sqrt_lt_R0; exact Hpos).
  assert (Hsq : hypot dx dy * hypot dx dy = dx * dx + dy * dy)
    by (apply sqrt_sqrt; lra).
  set (len := hypot dx dy) in *.
  unfold hypot at 1.
  replace (dx / len * s * (dx / len * s) + dy / len * s * (dy / len * s))
    with (s * s).
  - apply sqrt_square; exact Hs.
  - replace (dx / len * s * (dx / len * s) + dy / len * s * (dy / len * s))
      with (s * s * ((dx * dx + dy * dy) / (len * len))) by (field; lra).
    rewrite Hsq. field. lra.
Qed.

Lemma clamp_range v lo hi : lo <= hi -> lo <= clamp v lo hi <= hi.
Proof.
  intros H. unfold clamp, Rmin, Rmax.
  destruct (Rle_dec v lo); destruct (Rle_dec _ hi); lra.
Qed.

Lemma clamp_upper v lo hi : clamp v lo hi <= hi.
Proof. unfold clamp. apply Rmin_r. Qed.

(** ** Evaluation on concrete states

    A concrete run is evaluated in stages: [ev] unfolds the program but not
    the real operations, and [decide1] settles one comparison by [lra]. *)

Ltac ev :=
  cbv - [IZR Rplus Rminus Rmult Rdiv Rinv Ropp Rltb Rleb Rneqb Rmax Rmin hypot
         atan2 cos sin PI sqrt atan].

Ltac decide1 :=
  match goal with
  | |- context [cos 0] => rewrite cos_0
  | |- context [sin 0] => rewrite sin_0
  | |- context [Rltb (hypot ?a ?b) ?r] =>
      first [ rewrite (hypot_ltb_true a b r) by lra
            | rewrite (hypot_ltb_false a b r) by lra ]
  | |- context [hypot ?a ?b] => rewrite (hypot_unit a b) by lra
  | |- context [Rltb ?a ?b] =>
      first [ rewrite (Rltb_true a b) by lra
            | rewrite (Rltb_false a b) by lra ]
  | |- context [Rleb ?a ?b] =>
      first [ rewrite (Rleb_true a b) by lra
            | rewrite (Rleb_false a b) by lra ]
  | |- context [Rneqb ?a ?b] =>
      first [ rewrite (Rneqb_true a b) by lra
            | rewrite (Rneqb_false a b) by lra ]
  | |- context [Rmax ?a ?b] =>
      first [ rewrite (Rmax_left a b) by lra
            | rewrite (Rmax_right a b) by lra ]
  | |- context [Rmin ?a ?b] =>
      first [ rewrite (Rmin_left a b) by lra
            | rewrite (Rmin_right a b) by lra ]
  end.

Ltac run := repeat (ev; decide1); ev.

(** [stage t] evaluates the subterm [t] on its own and replaces it. *)
Ltac stage t :=
  let E := fresh "E" in
  eassert (E : t = _) by (run; reflexivity);
  rewrite E; clear E; cbv beta iota.

Ltac stage_tank :=
  match goal with
  | |- context [Tank.update ?w ?h ?r ?dt ?i ?k ?n] =>
      stage (Tank.update w h r dt i k n)
  end.

Ltac stage_move :=
  unfold Game.movePhase; stage_tank;
  match goal with
  | |- context [Game.enemiesLoop ?w ?h ?r ?dt ?es ?g] =>
      stage (Game.enemiesLoop w h r dt es g)
  end.

Ltac stage_ram :=
  match goal with
  | |- context [Game.ramPhase ?w ?h ?r ?g] => stage (Game.ramPhase w h r g)
  end.

Ltac stage_turn :=
  match goal with
  | |- context [Game.bulletTurn ?w ?h ?r ?b ?g] =>
      stage (Game.bulletTurn w h r b g)
  end.

(** ** Tank *)

Section TankProperties.
Variables WIDTH HEIGHT : R.
Variable random : nat -> R.

Lemma handleAI_size dt k n :
  Tank.size (fst (Tank.handleAI random dt k n)) = Tank.size k.
Proof.
  unfold Tank.handleAI.
  destruct (Rleb _ 0); cbn; destruct (Rltb _ _); reflexivity.
Qed.

Lemma handlePlayerInput_size input k :
  Tank.size (Tank.handlePlayerInput input k) = Tank.size k.
Proof.
  unfold Tank.handlePlayerInput. destruct (_ || _); reflexivity.
Qed.

Lemma Tank_update_eq dt input k n :
  let moved :=
    if Tank.isPlayer k then (Tank.handlePlayerInput input k, n)
    else Tank.handleAI random dt k n in
  Tank.update WIDTH HEIGHT random dt input k n =
  (Tank.set_y
     (clamp (Tank.y (fst moved)) (Tank.size k / 2) (HEIGHT - Tank.size k / 2))
     (Tank.set_x
        (clamp (Tank.x (fst moved)) (Tank.size k / 2)
               (WIDTH - Tank.size k / 2))
        (Tank.set_cooldown (Rmax 0 (Tank.cooldown (fst moved) - dt))
                           (fst moved))),
   snd moved).
Proof.
  intros moved. unfold Tank.update. fold moved.
  assert (Hs : Tank.size (fst moved) = Tank.size k).
  { unfold moved. destruct (Tank.isPlayer k);
      [apply handlePlayerInput_size | apply handleAI_size]. }
  destruct moved as [k1 n1]. cbn in *. rewrite Hs. reflexivity.
Qed.

(** C4. After [Tank.update], whatever the keys held, the time step and the
    random draws, a tank (the player or an enemy) lies in
    [[size/2, WIDTH - size/2] x [size/2, HEIGHT - size/2]], on a canvas at
    least as wide and as high as the tank. *)
Theorem Tank_update_in_field dt input k n :
  Tank.size k <= WIDTH -> Tank.size k <= HEIGHT ->
  let k' := fst (Tank.update WIDTH HEIGHT random dt input k n) in
  Tank.size k' = Tank.size k
  /\ Tank.size k / 2 <= Tank.x k' <= WIDTH - Tank.size k / 2
  /\ Tank.size k / 2 <= Tank.y k' <= HEIGHT - Tank.size k / 2.
Proof.
  intros HW HH k'. unfold k'. rewrite Tank_update_eq. cbn.
  split; [| split].
  - destruct (Tank.isPlayer k); cbn;
      [apply handlePlayerInput_size | apply handleAI_size].
  - apply clamp_range; lra.
  - apply clamp_range; lra.
Qed.

End TankProperties.

(** ** Player movement *)

Lemma handlePlayerInput_still input k :
  Tank.keyDx input = 0 -> Tank.keyDy input = 0 ->
  Tank.handlePlayerInput input k = k.
Proof.
  intros Hx Hy. unfold Tank.handlePlayerInput.
  rewrite (Rneqb_false _ 0 Hx), (Rneqb_false _ 0 Hy). reflexivity.
Qed.

Lemma handlePlayerInput_moving input k :
  Tank.keyDx input <> 0 \/ Tank.keyDy input <> 0 -> 0 <= Tank.speed k ->
  let k' := Tank.handlePlayerInput input k in
  hypot (Tank.x k' - Tank.x k) (Tank.y k' - Tank.y k) = Tank.speed k.
Proof.
  intros Hd Hs. unfold Tank.handlePlayerInput.
  assert (Hc : Rneqb (Tank.keyDx input) 0 || Rneqb (Tank.keyDy input) 0 = true).
  { destruct Hd as [Hd | Hd]; rewrite (Rneqb_true _ 0 Hd);
      [reflexivity | apply orb_true_r]. }
  rewrite Hc. cbn.
  set (dx := Tank.keyDx input) in *. set (dy := Tank.keyDy input) in *.
  replace (Tank.x k + dx / hypot dx dy * Tank.speed k - Tank.x k)
    with (dx / hypot dx dy * Tank.speed k) by ring.
  replace (Tank.y k + dy / hypot dx dy * Tank.speed k - Tank.y k)
    with (dy / hypot dx dy * Tank.speed k) by ring.
  apply hypot_normalised; assumption.
Qed.

(** The keys that leave a net direction: on one axis at least, exactly one
    of the two keys is held. *)
Lemma keys_net_direction input :
  let up := Input.pressed input "ArrowUp" in
  let down := Input.pressed input "ArrowDown" in
  let left := Input.pressed input "ArrowLeft" in
  let right := Input.pressed input "ArrowRight" in
  (xorb left right = true <-> Tank.keyDx input <> 0)
  /\ (xorb up down = true <-> Tank.keyDy input <> 0).
Proof.
  unfold Tank.keyDx, Tank.keyDy; cbn zeta.
  destruct (Input.pressed input "ArrowUp"), (Input.pressed input "ArrowDown"),
    (Input.pressed input "ArrowLeft"), (Input.pressed input "ArrowRight");
    cbn; split; split; intros; try lra; try discriminate; try reflexivity.
Qed.

(** C5, as the code has it.  When the held arrow keys leave a net
    direction (on one axis at least exactly one of its two keys is held),
    the displacement made by [handlePlayerInput] has length [speed], on a
    diagonal as on an axis; when the held keys cancel on both axes the tank
    is left where it is. *)
Theorem handlePlayerInput_displacement input k :
  0 <= Tank.speed k ->
  let up := Input.pressed input "ArrowUp" in
  let down := Input.pressed input "ArrowDown" in
  let left := Input.pressed input "ArrowLeft" in
  let right := Input.pressed input "ArrowRight" in
  let k' := Tank.handlePlayerInput input k in
  (xorb up down || xorb left right = true ->
   hypot (Tank.x k' - Tank.x k) (Tank.y k' - Tank.y k) = Tank.speed k)
  /\ (xorb up down || xorb left right = false -> k' = k).
Proof.
  intros Hs up down left right k'.
  destruct (keys_net_direction input) as [Hx Hy].
  fold up down left right in Hx, Hy.
  split; intros Hk.
  - apply handlePlayerInput_moving; [| exact Hs].
    apply orb_true_iff in Hk. destruct Hk as [Hk | Hk].
    + right. apply Hy, Hk.
    + left. apply Hx, Hk.
  - apply orb_false_iff in Hk. destruct Hk as [Hk1 Hk2].
    apply handlePlayerInput_still.
    + destruct (Req_dec_T (Tank.keyDx input) 0) as [E | E]; [exact E |].
      apply Hx in E. congruence.
    + destruct (Req_dec_T (Tank.keyDy input) 0) as [E | E]; [exact E |].
      apply Hy in E. congruence.
Qed.

(** Up and right together cover the same distance as up alone. *)
Lemma handlePlayerInput_displacement_witness :
  let k := Scene.hero in
  let diag := Tank.handlePlayerInput ["ArrowUp"%string; "ArrowRight"%string] k in
  let axial := Tank.handlePlayerInput ["ArrowUp"%string] k in
  hypot (Tank.x diag - Tank.x k) (Tank.y diag - Tank.y k) = Tank.speed k
  /\ hypot (Tank.x axial - Tank.x k) (Tank.y axial - Tank.y k) = Tank.speed k.
Proof.
  assert (Hs : 0 <= Tank.speed Scene.hero)
    by (cbn; unfold PLAYER_SPEED; lra).
  split.
  - apply (handlePlayerInput_displacement ["ArrowUp"%string; "ArrowRight"%string]
             Scene.hero Hs). reflexivity.
  - apply (handlePlayerInput_displacement ["ArrowUp"%string] Scene.hero Hs).
    reflexivity.
Defined.

(** C5 as stated fails: with up and down held together a key is pressed and
    the player does not move at all. *)
Lemma opposite_keys_cancel :
  let k := Scene.hero in
  let input := ["ArrowUp"%string; "ArrowDown"%string] in
  let k' := Tank.handlePlayerInput input k in
  Input.pressed input "ArrowUp" = true
  /\ hypot (Tank.x k' - Tank.x k) (Tank.y k' - Tank.y k) = 0
  /\ hypot (Tank.x k' - Tank.x k) (Tank.y k' - Tank.y k) <> Tank.speed k.
Proof.
  cbv zeta.
  assert (E : Tank.handlePlayerInput ["ArrowUp"%string; "ArrowDown"%string] Scene.hero
              = Scene.hero).
  { apply handlePlayerInput_still; cbv [Tank.keyDx Tank.keyDy]; cbn; lra. }
  rewrite E.
  assert (Z0 : hypot (Tank.x Scene.hero - Tank.x Scene.hero)
                     (Tank.y Scene.hero - Tank.y Scene.hero) = 0).
  { unfold hypot.
    replace (_ * _ + _ * _) with 0 by ring. apply sqrt_0. }
  split; [reflexivity | split; [exact Z0 |]].
  rewrite Z0. cbn. unfold PLAYER_SPEED. lra.
Qed.

(** ** Input: the set of held keys *)

Lemma pressed_app keys1 keys2 c :
  Input.pressed (keys1 ++ keys2) c
  = Input.pressed keys1 c || Input.pressed keys2 c.
Proof. unfold Input.pressed. apply existsb_app. Qed.

(** After a key-down of [c] the key [c] is held, after a key-up it is not,
    and neither event changes what [pressed] answers for another key. *)
Theorem pressed_after_key_events keys c c' :
  Input.pressed (Input.keydown keys c) c'
  = (Input.pressed keys c' || String.eqb c' c)
  /\ Input.pressed (Input.keyup keys c) c'
     = (Input.pressed keys c' && negb (String.eqb c' c)).
Proof.
  split.
  - unfold Input.keydown. destruct (Input.pressed keys c) eqn:Hc.
    + destruct (String.eqb_spec c' c) as [-> | _].
      * rewrite Hc. reflexivity.
      * rewrite orb_false_r. reflexivity.
    + rewrite pressed_app. unfold Input.pressed at 2. cbn [existsb].
      rewrite orb_false_r. reflexivity.
  - unfold Input.keyup, Input.pressed.
    induction keys as [| k keys IH]; cbn [filter existsb]; [reflexivity |].
    destruct (String.eqb_spec c k) as [-> | Hck]; cbn [negb existsb].
    + rewrite IH. destruct (String.eqb c' k), (existsb _ keys); reflexivity.
    + rewrite IH. destruct (String.eqb_spec c' k) as [-> | _];
        cbn [orb]; [| reflexivity].
      destruct (String.eqb_spec k c) as [-> | _]; [contradiction Hck |];
        reflexivity.
Qed.

Lemma keydown_NoDup keys c : NoDup keys -> NoDup (Input.keydown keys c).
Proof.
  intros Hn. unfold Input.keydown.
  destruct (Input.pressed keys c) eqn:Hc; [exact Hn |].
  apply NoDup_app; [exact Hn | repeat constructor; intros [] |].
  intros a Ha [Hca | []]. subst a.
  assert (Input.pressed keys c = true).
  { unfold Input.pressed. apply existsb_exists. exists c.
    split; [exact Ha | apply String.eqb_refl]. }
  congruence.
Qed.

Lemma keyup_NoDup keys c : NoDup keys -> NoDup (Input.keyup keys c).
Proof. intros Hn. unfold Input.keyup. apply NoDup_filter, Hn. Qed.

(** The held keys are a set: when no code occurs twice in the list, none
    does after a key-down or a key-up, and a key-down of a key already held
    changes nothing. *)
Theorem held_keys_stay_a_set keys c :
  NoDup keys ->
  NoDup (Input.keydown keys c) /\ NoDup (Input.keyup keys c)
  /\ Input.keydown (Input.keydown keys c) c = Input.keydown keys c.
Proof.
  intros Hn. split; [apply keydown_NoDup, Hn |].
  split; [apply keyup_NoDup, Hn |].
  unfold Input.keydown at 1.
  replace (Input.pressed (Input.keydown keys c) c) with true; [reflexivity |].
  symmetry. unfold Input.keydown.
  destruct (Input.pressed keys c) eqn:Hc; [exact Hc |].
  rewrite pressed_app. unfold Input.pressed at 2. cbn [existsb].
  rewrite String.eqb_refl. apply orb_true_r.
Qed.

(** ** Bullet: flight *)

Lemma hypot_polar a s : hypot (cos a * s) (sin a * s) = Rabs s.
Proof.
  unfold hypot. pose proof (sin2_cos2 a) as H. unfold Rsqr in H.
  replace (cos a * s * (cos a * s) + sin a * s * (sin a * s))
    with (s * s * (sin a * sin a + cos a * cos a)) by ring.
  rewrite H, Rmult_1_r. apply (sqrt_Rsqr_abs s).
Qed.

(** [Bullet.update] moves a bullet along its direction: the new position
    is the old one plus [speed] times the unit vector [(cos dir, sin dir)],
    so the move has the length of the speed (6 for a bullet made by the
    constructor); direction, owner, size and speed are not changed. *)
Theorem Bullet_update_step WIDTH HEIGHT b :
  let b' := Bullet.update WIDTH HEIGHT b in
  hypot (Bullet.x b' - Bullet.x b) (Bullet.y b' - Bullet.y b)
  = Rabs (Bullet.speed b)
  /\ Bullet.dir b' = Bullet.dir b /\ Bullet.owner b' = Bullet.owner b
  /\ Bullet.size b' = Bullet.size b /\ Bullet.speed b' = Bullet.speed b
  /\ (forall x0 y0 d o, b = Bullet.new x0 y0 d o ->
      hypot (Bullet.x b' - x0) (Bullet.y b' - y0) = BULLET_SPEED)
  /\ Bullet.x b' = Bullet.x b + Bullet.speed b * cos (Bullet.dir b)
  /\ Bullet.y b' = Bullet.y b + Bullet.speed b * sin (Bullet.dir b).
Proof.
  cbn zeta. unfold Bullet.update. cbn.
  assert (E : hypot (Bullet.x b + cos (Bullet.dir b) * Bullet.speed b
                     - Bullet.x b)
                    (Bullet.y b + sin (Bullet.dir b) * Bullet.speed b
                     - Bullet.y b) = Rabs (Bullet.speed b)).
  { replace (Bullet.x b + cos (Bullet.dir b) * Bullet.speed b - Bullet.x b)
      with (cos (Bullet.dir b) * Bullet.speed b) by ring.
    replace (Bullet.y b + sin (Bullet.dir b) * Bullet.speed b - Bullet.y b)
      with (sin (Bullet.dir b) * Bullet.speed b) by ring.
    apply hypot_polar. }
  split; [exact E |]. do 4 (split; [reflexivity |]).
  split; [| split; ring].
  intros x0 y0 d o ->. cbn in *. rewrite E. unfold BULLET_SPEED.
  apply Rabs_pos_eq. lra.
Qed.

Lemma flight_shape WIDTH HEIGHT n b :
  let b' := flight WIDTH HEIGHT n b in
  Bullet.x b' = Bullet.x b + INR n * (cos (Bullet.dir b) * Bullet.speed b)
  /\ Bullet.y b' = Bullet.y b + INR n * (sin (Bullet.dir b) * Bullet.speed b)
  /\ Bullet.dir b' = Bullet.dir b /\ Bullet.speed b' = Bullet.speed b
  /\ Bullet.owner b' = Bullet.owner b.
Proof.
  cbn zeta. induction n as [| n IH].
  - cbn. repeat split; lra.
  - destruct IH as (Hx & Hy & Hd & Hs & Ho).
    rewrite S_INR. cbn [flight].
    set (prev := flight WIDTH HEIGHT n b) in *.
    unfold Bullet.update.
    cbn [Bullet.x Bullet.y Bullet.dir Bullet.speed Bullet.owner].
    rewrite Hx, Hy, Hd, Hs, Ho. repeat split; ring.
Qed.

Lemma unit_vector_large c s :
  s * s + c * c = 1 ->
  7 / 10 <= c \/ c <= - (7 / 10) \/ 7 / 10 <= s \/ s <= - (7 / 10).
Proof.
  intros H.
  destruct (Rle_or_lt (7 / 10) c); [tauto |].
  destruct (Rle_or_lt c (- (7 / 10))); [tauto |].
  destruct (Rle_or_lt (7 / 10) s); [tauto |].
  destruct (Rle_or_lt s (- (7 / 10))); [tauto |].
  exfalso. nra.
Qed.

(** A bullet of speed 6 that starts within the margin of 10 around the
    canvas is inactive after [n] calls of [Bullet.update] as soon as [4 n]
    exceeds both [WIDTH + 20] and [HEIGHT + 20]: no bullet flies for ever. *)
Theorem bullet_leaves_field WIDTH HEIGHT n b :
  Bullet.speed b = BULLET_SPEED ->
  -10 <= Bullet.x b <= WIDTH + 10 -> -10 <= Bullet.y b <= HEIGHT + 10 ->
  WIDTH + 20 < 4 * INR n -> HEIGHT + 20 < 4 * INR n ->
  Bullet.active (flight WIDTH HEIGHT n b) = false.
Proof.
  intros Hs Hx Hy HW HH.
  destruct n as [| n]; [cbn in HW; lra |].
  destruct (flight_shape WIDTH HEIGHT (S n) b) as (Fx & Fy & _).
  cbn [flight] in *.
  set (prev := flight WIDTH HEIGHT n b) in *.
  unfold Bullet.update in Fx, Fy |- *.
  cbn [Bullet.x Bullet.y Bullet.active] in *.
  match goal with
  | |- (if ?c then _ else _) = _ => replace c with true; [reflexivity |]
  end.
  symmetry. unfold Bullet.outside. rewrite !orb_true_iff, !Rltb_spec.
  rewrite Fx, Fy, Hs. unfold BULLET_SPEED.
  pose proof (pos_INR n) as Hn. rewrite S_INR in *.
  set (N := INR n + 1) in *.
  assert (HN : 0 < N) by (unfold N; lra).
  set (c := cos (Bullet.dir b)). set (s := sin (Bullet.dir b)).
  pose proof (sin2_cos2 (Bullet.dir b)) as Hu. unfold Rsqr in Hu.
  fold c s in Hu.
  destruct (unit_vector_large c s Hu) as [Hc | [Hc | [Hc | Hc]]].
  - left. left. right.
    assert (N * (7 / 10) <= N * c) by (apply Rmult_le_compat_l; lra). lra.
  - left. left. left.
    assert (N * c <= N * (- (7 / 10))) by (apply Rmult_le_compat_l; lra).
    lra.
  - right.
    assert (N * (7 / 10) <= N * s) by (apply Rmult_le_compat_l; lra). lra.
  - left. right.
    assert (N * s <= N * (- (7 / 10))) by (apply Rmult_le_compat_l; lra).
    lra.
Qed.

(** ** Tank: reloading, muzzle, wander step, heading *)

Lemma handleAI_cooldown random dt k n :
  Tank.cooldown (fst (Tank.handleAI random dt k n)) = Tank.cooldown k.
Proof.
  unfold Tank.handleAI.
  destruct (Rleb _ 0); cbn; destruct (Rltb _ _); reflexivity.
Qed.

Lemma handlePlayerInput_cooldown input k :
  Tank.cooldown (Tank.handlePlayerInput input k) = Tank.cooldown k.
Proof.
  unfold Tank.handlePlayerInput. destruct (_ || _); reflexivity.
Qed.

Lemma Tank_update_cooldown WIDTH HEIGHT random dt input k n :
  Tank.cooldown (fst (Tank.update WIDTH HEIGHT random dt input k n))
  = Rmax 0 (Tank.cooldown k - dt).
Proof.
  rewrite Tank_update_eq. cbn.
  destruct (Tank.isPlayer k); cbn;
    [rewrite handlePlayerInput_cooldown | rewrite handleAI_cooldown];
    reflexivity.
Qed.

(** A tank whose cooldown is positive does not shoot: [tryShoot] changes
    neither the tank nor the bullet list.  A tank that is ready shoots and
    must then reload: a second [tryShoot] at once does nothing, one after an
    [update] of less than 40 time units does nothing either, and one after
    an [update] of 40 time units or more shoots again. *)
Theorem tryShoot_reload WIDTH HEIGHT random dt input n bs who k :
  let shot := Tank.tryShoot bs who k in
  let k1 := fst shot in
  let k2 := fst (Tank.update WIDTH HEIGHT random dt input k1 n) in
  (0 < Tank.cooldown k -> shot = (k, bs))
  /\ (Tank.cooldown k <= 0 ->
      length (snd shot) = S (length bs)
      /\ Tank.tryShoot (snd shot) who k1 = (k1, snd shot)
      /\ (dt < 40 -> Tank.tryShoot (snd shot) who k2 = (k2, snd shot))
      /\ (40 <= dt ->
          length (snd (Tank.tryShoot (snd shot) who k2))
          = S (S (length bs)))).
Proof.
  cbn zeta. split.
  - intros Hc. unfold Tank.tryShoot. rewrite (Rltb_true _ _ Hc). reflexivity.
  - intros Hc.
    assert (E : exists b,
      Tank.tryShoot bs who k = (Tank.set_cooldown 40 k, bs ++ [b])).
    { unfold Tank.tryShoot. rewrite (Rltb_false _ _ Hc). eexists.
      reflexivity. }
    destruct E as [b E]. rewrite E. cbn [fst snd].
    set (bs1 := bs ++ [b]).
    assert (Hl : length bs1 = S (length bs))
      by (unfold bs1; rewrite length_app; cbn; lia).
    split; [exact Hl |]. split; [| split].
    + unfold Tank.tryShoot. cbn. rewrite Rltb_true by lra. reflexivity.
    + intros Hdt. unfold Tank.tryShoot.
      rewrite Tank_update_cooldown. cbn [Tank.cooldown Tank.set_cooldown].
      rewrite Rltb_true; [reflexivity |].
      unfold Rmax. destruct (Rle_dec 0 (40 - dt)); lra.
    + intros Hdt. unfold Tank.tryShoot.
      rewrite Tank_update_cooldown. cbn [Tank.cooldown Tank.set_cooldown].
      rewrite Rltb_false.
      * cbn [snd]. rewrite length_app, Hl. cbn. lia.
      * unfold Rmax. destruct (Rle_dec 0 (40 - dt)); lra.
Qed.

(** A tank that is ready puts its bullet ahead of itself: at the centre
    of the tank plus 0.7 times its size times the unit vector of its
    heading, hence at that distance from the centre.  The bullet flies along
    that heading, is active and owned as asked; the bullets already in the
    list are kept in front of it and the tank does not move. *)
Theorem tryShoot_muzzle bs who k :
  Tank.cooldown k <= 0 -> 0 <= Tank.size k ->
  exists b,
    Tank.tryShoot bs who k = (Tank.set_cooldown 40 k, bs ++ [b])
    /\ hypot (Bullet.x b - Tank.x k) (Bullet.y b - Tank.y k)
       = 0.7 * Tank.size k
    /\ Bullet.dir b = Tank.angle k /\ Bullet.owner b = who
    /\ Bullet.active b = true /\ Bullet.speed b = BULLET_SPEED
    /\ Bullet.x b = Tank.x k + 0.7 * Tank.size k * cos (Tank.angle k)
    /\ Bullet.y b = Tank.y k + 0.7 * Tank.size k * sin (Tank.angle k).
Proof.
  intros Hc Hs. unfold Tank.tryShoot. rewrite (Rltb_false _ _ Hc).
  eexists. split; [reflexivity |]. cbn.
  split; [| do 4 (split; [reflexivity |]); split; ring].
  replace (Tank.x k + cos (Tank.angle k) * Tank.size k * 0.7 - Tank.x k)
    with (cos (Tank.angle k) * (0.7 * Tank.size k)) by ring.
  replace (Tank.y k + sin (Tank.angle k) * Tank.size k * 0.7 - Tank.y k)
    with (sin (Tank.angle k) * (0.7 * Tank.size k)) by ring.
  rewrite hypot_polar. apply Rabs_pos_eq. lra.
Qed.

Lemma handleAI_displacement random dt k n :
  0 <= Tank.speed k ->
  let k' := fst (Tank.handleAI random dt k n) in
  hypot (Tank.x k' - Tank.x k) (Tank.y k' - Tank.y k) = 0.8 * Tank.speed k.
Proof.
  intros Hs. cbn zeta. unfold Tank.handleAI.
  assert (Hstep : forall a,
    hypot (Tank.x k + cos a * Tank.speed k * 0.8 - Tank.x k)
          (Tank.y k + sin a * Tank.speed k * 0.8 - Tank.y k)
    = 0.8 * Tank.speed k).
  { intros a.
    replace (Tank.x k + cos a * Tank.speed k * 0.8 - Tank.x k)
      with (cos a * (0.8 * Tank.speed k)) by ring.
    replace (Tank.y k + sin a * Tank.speed k * 0.8 - Tank.y k)
      with (sin a * (0.8 * Tank.speed k)) by ring.
    rewrite hypot_polar. apply Rabs_pos_eq. lra. }
  destruct (Rleb _ 0); cbv beta iota; destruct (Rltb _ _); cbn; apply Hstep.
Qed.

(** [handleAI] always moves the tank forward, by 0.8 times its speed
    along the heading it has at that moment: the heading it came with while
    the timer runs, the newly drawn one when the timer has run out.  After
    the move the heading is turned by a quarter turn when the last draw is
    below 0.01, and kept otherwise.  The timer
    either decreases by [dt] and stays positive, or has run out and is set
    again within [120, 240); one draw of [Math.random] is made, or four when
    the timer is set again. *)
Theorem handleAI_step random dt k n :
  fair random -> 0 <= Tank.speed k ->
  let r := Tank.handleAI random dt k n in
  let k' := fst r in
  hypot (Tank.x k' - Tank.x k) (Tank.y k' - Tank.y k) = 0.8 * Tank.speed k
  /\ ((0 < Tank.targetDirTimer k - dt
       /\ Tank.targetDirTimer k' = Tank.targetDirTimer k - dt
       /\ snd r = S n)
      \/ (Tank.targetDirTimer k - dt <= 0
          /\ 120 <= Tank.targetDirTimer k' < 240
          /\ snd r = S (n + 3)))
  /\ exists heading,
       Tank.x k' = Tank.x k + 0.8 * Tank.speed k * cos heading
       /\ Tank.y k' = Tank.y k + 0.8 * Tank.speed k * sin heading
       /\ Tank.angle k'
          = (if Rltb (random (Nat.pred (snd r))) 0.01
             then heading + PI / 2 else heading)
       /\ (0 < Tank.targetDirTimer k - dt -> heading = Tank.angle k)
       /\ (Tank.targetDirTimer k - dt <= 0 ->
           heading = atan2 (random (n + 2)%nat * 2 - 1)
                           (random (n + 1)%nat * 2 - 1)).
Proof.
  intros Hf Hs. cbn zeta. unfold Tank.handleAI. cbn [Tank.targetDirTimer
    Tank.set_targetDirTimer].
  assert (Hstep : forall a,
    hypot (Tank.x k + cos a * Tank.speed k * 0.8 - Tank.x k)
          (Tank.y k + sin a * Tank.speed k * 0.8 - Tank.y k)
    = 0.8 * Tank.speed k).
  { intros a.
    replace (Tank.x k + cos a * Tank.speed k * 0.8 - Tank.x k)
      with (cos a * (0.8 * Tank.speed k)) by ring.
    replace (Tank.y k + sin a * Tank.speed k * 0.8 - Tank.y k)
      with (sin a * (0.8 * Tank.speed k)) by ring.
    rewrite hypot_polar. apply Rabs_pos_eq. lra. }
  destruct (Rle_dec (Tank.targetDirTimer k - dt) 0) as [Hle | Hgt].
  - rewrite (Rleb_true _ _ Hle). cbv beta iota.
    destruct (Rltb (random (n + 3)%nat) _) eqn:Hturn; cbn;
      (split; [apply Hstep |]);
      (split;
       [ right; pose proof (Hf n); (split; [exact Hle | split; [lra |]]);
         reflexivity
       | exists (atan2 (random (n + 2)%nat * 2 - 1)
                       (random (n + 1)%nat * 2 - 1));
         split; [ring |]; split; [ring |];
         split; [rewrite Hturn; reflexivity |];
         split; [intros; lra | reflexivity] ]).
  - rewrite Rleb_false by lra. cbv beta iota.
    destruct (Rltb (random n) _) eqn:Hturn; cbn; (split; [apply Hstep |]);
      (split;
       [ left; (split; [lra | split; reflexivity])
       | exists (Tank.angle k);
         split; [ring |]; split; [ring |];
         split; [rewrite Hturn; reflexivity |];
         split; [reflexivity | intros; lra] ]).
Qed.

Lemma hypot_axis_r a : 0 <= a -> hypot a 0 = a.
Proof.
  intros Ha. unfold hypot. replace (a * a + 0 * 0) with (a * a) by ring.
  apply sqrt_square, Ha.
Qed.

Lemma hypot_axis_l a : 0 <= a -> hypot 0 a = a.
Proof.
  intros Ha. unfold hypot. replace (0 * 0 + a * a) with (a * a) by ring.
  apply sqrt_square, Ha.
Qed.

Lemma atan2_axes y x :
  (y = 0 -> 0 < x -> atan2 y x = 0)
  /\ (y = 0 -> x < 0 -> atan2 y x = PI)
  /\ (x = 0 -> y < 0 -> atan2 y x = - (PI / 2))
  /\ (x = 0 -> 0 < y -> atan2 y x = PI / 2).
Proof.
  unfold atan2. repeat split; intros H1 H2; subst.
  - rewrite Rltb_true by lra. replace (0 / x) with 0 by (field; lra).
    apply atan_0.
  - rewrite Rltb_false, Rltb_true, Rleb_true by lra.
    replace (0 / x) with 0 by (field; lra). rewrite atan_0. lra.
  - rewrite (Rltb_false 0 0), (Rltb_false 0 y), (Rltb_true y 0) by lra.
    reflexivity.
  - rewrite (Rltb_false 0 0), (Rltb_true 0 y) by lra. reflexivity.
Qed.

Lemma heading_eq input k dx dy :
  Tank.keyDx input = dx -> Tank.keyDy input = dy -> dx <> 0 \/ dy <> 0 ->
  Tank.angle (Tank.handlePlayerInput input k)
  = atan2 (dy / hypot dx dy) (dx / hypot dx dy).
Proof.
  intros Hx Hy Hd. unfold Tank.handlePlayerInput. rewrite Hx, Hy.
  assert (Hc : Rneqb dx 0 || Rneqb dy 0 = true).
  { destruct Hd as [Hd | Hd]; rewrite (Rneqb_true _ 0 Hd);
      [reflexivity | apply orb_true_r]. }
  rewrite Hc. reflexivity.
Qed.

Lemma keys_direction input :
  Tank.keyDx input
  = (if Input.pressed input "ArrowRight" then 1 else 0)
    - (if Input.pressed input "ArrowLeft" then 1 else 0)
  /\ Tank.keyDy input
     = (if Input.pressed input "ArrowDown" then 1 else 0)
       - (if Input.pressed input "ArrowUp" then 1 else 0).
Proof.
  unfold Tank.keyDx, Tank.keyDy. cbn zeta.
  destruct (Input.pressed input "ArrowUp"), (Input.pressed input "ArrowDown"),
    (Input.pressed input "ArrowLeft"), (Input.pressed input "ArrowRight");
    split; lra.
Qed.

(** With the keys of one axis cancelling or released and one key of the
    other axis held, the heading of the player becomes the angle of that
    direction on the canvas, where y grows downwards: 0 for right, pi for
    left, -pi/2 for up and pi/2 for down. *)
Theorem handlePlayerInput_heading input k :
  let up := Input.pressed input "ArrowUp" in
  let down := Input.pressed input "ArrowDown" in
  let left := Input.pressed input "ArrowLeft" in
  let right := Input.pressed input "ArrowRight" in
  let a := Tank.angle (Tank.handlePlayerInput input k) in
  (right = true -> left = false -> up = down -> a = 0)
  /\ (left = true -> right = false -> up = down -> a = PI)
  /\ (up = true -> down = false -> left = right -> a = - (PI / 2))
  /\ (down = true -> up = false -> left = right -> a = PI / 2).
Proof.
  cbn zeta. destruct (keys_direction input) as [Hx Hy].
  assert (Hp : hypot 1 0 = 1) by (apply hypot_axis_r; lra).
  assert (Hq : hypot 0 1 = 1) by (apply hypot_axis_l; lra).
  assert (Hm : hypot (-1) 0 = 1).
  { unfold hypot. replace (-1 * -1 + 0 * 0) with 1 by ring. apply sqrt_1. }
  assert (Hn : hypot 0 (-1) = 1).
  { unfold hypot. replace (0 * 0 + -1 * -1) with 1 by ring. apply sqrt_1. }
  repeat split; intros H1 H2 H3; rewrite H1, H2 in *.
  - rewrite (heading_eq input k 1 0); [| lra | | left; lra].
    + rewrite Hp. apply atan2_axes; lra.
    + rewrite Hy, H3. destruct (Input.pressed input "ArrowDown"); lra.
  - rewrite (heading_eq input k (-1) 0); [| lra | | left; lra].
    + rewrite Hm. apply atan2_axes; lra.
    + rewrite Hy, H3. destruct (Input.pressed input "ArrowDown"); lra.
  - rewrite (heading_eq input k 0 (-1)); [| | lra | right; lra].
    + rewrite Hn. apply atan2_axes; lra.
    + rewrite Hx, H3. destruct (Input.pressed input "ArrowRight"); lra.
  - rewrite (heading_eq input k 0 1); [| | lra | right; lra].
    + rewrite Hq. apply atan2_axes; lra.
    + rewrite Hx, H3. destruct (Input.pressed input "ArrowRight"); lra.
Qed.

(** ** Tank: speed limit *)

Lemma hypot_mono a b a' b' :
  a' * a' <= a * a -> b' * b' <= b * b -> hypot a' b' <= hypot a b.
Proof. intros Ha Hb. unfold hypot. apply sqrt_le_1_alt. lra. Qed.

Lemma clamp_nearer v x lo hi :
  lo <= x <= hi ->
  (clamp v lo hi - x) * (clamp v lo hi - x) <= (v - x) * (v - x).
Proof.
  intros Hx. unfold clamp, Rmin, Rmax.
  destruct (Rle_dec v lo); destruct (Rle_dec _ hi); nra.
Qed.

Lemma clamp_inside v lo hi : lo <= v <= hi -> clamp v lo hi = v.
Proof.
  intros Hv. unfold clamp, Rmin, Rmax.
  destruct (Rle_dec v lo); destruct (Rle_dec _ hi); lra.
Qed.

Lemma hypot_zero a b : a = 0 -> b = 0 -> hypot a b = 0.
Proof.
  intros -> ->. unfold hypot. replace (0 * 0 + 0 * 0) with 0 by ring.
  apply sqrt_0.
Qed.

(** In one [Tank.update] a tank that is on the field, the player or an
    enemy, is displaced by no more than its speed, whatever the keys, the
    time step and the random draws. *)
Theorem Tank_update_speed_limit WIDTH HEIGHT random dt input k n :
  inField WIDTH HEIGHT k -> 0 <= Tank.speed k ->
  let k' := fst (Tank.update WIDTH HEIGHT random dt input k n) in
  hypot (Tank.x k' - Tank.x k) (Tank.y k' - Tank.y k) <= Tank.speed k.
Proof.
  intros [Hx Hy] Hs. cbn zeta. rewrite Tank_update_eq. cbn.
  set (m := fst (if Tank.isPlayer k
                 then (Tank.handlePlayerInput input k, n)
                 else Tank.handleAI random dt k n)).
  apply Rle_trans
    with (hypot (Tank.x m - Tank.x k) (Tank.y m - Tank.y k)).
  - apply hypot_mono; apply clamp_nearer; assumption.
  - unfold m. destruct (Tank.isPlayer k); cbn [fst].
    + destruct (Req_dec_T (Tank.keyDx input) 0) as [Ex | Ex];
        [destruct (Req_dec_T (Tank.keyDy input) 0) as [Ey | Ey] |].
      * rewrite (handlePlayerInput_still input k Ex Ey).
        rewrite hypot_zero by ring. exact Hs.
      * rewrite (handlePlayerInput_moving input k) by (auto; lra). lra.
      * rewrite (handlePlayerInput_moving input k) by (auto; lra). lra.
    + rewrite (handleAI_displacement random dt k n Hs). lra.
Qed.

(** A player on the field whose held keys leave no net direction keeps its
    position and heading through [Tank.update]; only its cooldown runs. *)
Theorem player_idle_stays WIDTH HEIGHT random dt input k n :
  Tank.isPlayer k = true -> inField WIDTH HEIGHT k ->
  Tank.keyDx input = 0 -> Tank.keyDy input = 0 ->
  Tank.update WIDTH HEIGHT random dt input k n
  = (Tank.set_cooldown (Rmax 0 (Tank.cooldown k - dt)) k, n).
Proof.
  intros Hp [Hx Hy] Ex Ey. rewrite Tank_update_eq. rewrite Hp.
  cbn [fst snd]. rewrite (handlePlayerInput_still input k Ex Ey).
  cbn [Tank.x Tank.y Tank.set_cooldown].
  rewrite (clamp_inside _ _ _ Hx), (clamp_inside _ _ _ Hy).
  destruct k; reflexivity.
Qed.

Lemma handleAI_kind random dt k n :
  let k' := fst (Tank.handleAI random dt k n) in
  Tank.isPlayer k' = Tank.isPlayer k /\ Tank.speed k' = Tank.speed k.
Proof.
  cbn zeta. unfold Tank.handleAI.
  destruct (Rleb _ 0); cbn; destruct (Rltb _ _); split; reflexivity.
Qed.

Lemma handlePlayerInput_kind input k :
  let k' := Tank.handlePlayerInput input k in
  Tank.isPlayer k' = Tank.isPlayer k /\ Tank.speed k' = Tank.speed k.
Proof.
  cbn zeta. unfold Tank.handlePlayerInput.
  destruct (_ || _); split; reflexivity.
Qed.

Lemma Tank_update_steered WIDTH HEIGHT random dt input k n :
  steered WIDTH HEIGHT k
          (fst (Tank.update WIDTH HEIGHT random dt input k n)).
Proof.
  unfold steered. rewrite Tank_update_eq. cbn.
  set (m := fst (if Tank.isPlayer k
                 then (Tank.handlePlayerInput input k, n)
                 else Tank.handleAI random dt k n)).
  assert (Hk : Tank.isPlayer m = Tank.isPlayer k
               /\ Tank.speed m = Tank.speed k /\ Tank.size m = Tank.size k).
  { destruct (handlePlayerInput_kind input k) as [P1 P2].
    destruct (handleAI_kind random dt k n) as [A1 A2].
    pose proof (handlePlayerInput_size input k) as P3.
    pose proof (handleAI_size random dt k n) as A3.
    unfold m. destruct (Tank.isPlayer k); cbn [fst]; repeat split;
      assumption. }
  destruct Hk as (H1 & H2 & H3).
  repeat split; try assumption.
  - apply Rmax_l.
  - eexists _, _. split; reflexivity.
Qed.

(** ** Game: what each operation leaves alone *)

Section GameProperties.
Variables WIDTH HEIGHT : R.
Variable random : nat -> R.

Abbreviation addParticles := (Game.addParticles random).
Abbreviation spawnEnemies := (Game.spawnEnemies WIDTH HEIGHT random).
Abbreviation reset := (Game.reset WIDTH HEIGHT random).
Abbreviation respawnPlayer := (Game.respawnPlayer WIDTH HEIGHT).
Abbreviation loseLife := (Game.loseLife WIDTH HEIGHT).
Abbreviation ramLoop := (Game.ramLoop random).
Abbreviation ramPhase := (Game.ramPhase WIDTH HEIGHT random).
Abbreviation shotLoop := (Game.shotLoop random).
Abbreviation bulletTurn := (Game.bulletTurn WIDTH HEIGHT random).
Abbreviation bulletsLoop := (Game.bulletsLoop WIDTH HEIGHT random).
Abbreviation bulletPhase := (Game.bulletPhase WIDTH HEIGHT random).
Abbreviation handleCollisions := (Game.handleCollisions WIDTH HEIGHT random).
Abbreviation enemyTurn := (Game.enemyTurn WIDTH HEIGHT random).
Abbreviation enemiesLoop := (Game.enemiesLoop WIDTH HEIGHT random).
Abbreviation movePhase := (Game.movePhase WIDTH HEIGHT random).
Abbreviation update := (Game.update WIDTH HEIGHT random).
Abbreviation loop := (Game.loop WIDTH HEIGHT random).
Abbreviation step := (Game.step WIDTH HEIGHT random).

Lemma addParticles_shape px py c g :
  exists ps n,
    addParticles px py c g = Game.set_rng n (Game.set_particles ps g).
Proof.
  unfold Game.addParticles.
  destruct (Game.addParticlesLoop _ _ _ _ _ _ _) as [ps n]. eauto.
Qed.

Lemma spawnLoop_length i es n :
  length (fst (Game.spawnLoop WIDTH HEIGHT random i es n))
  = (length es + i)%nat.
Proof.
  revert es n. induction i as [| i IH]; intros es n; cbn.
  - lia.
  - rewrite IH, length_app. cbn. lia.
Qed.

Lemma spawnEnemies_shape g :
  exists es n,
    spawnEnemies g = Game.set_rng n (Game.set_enemies es g)
    /\ length es = ENEMY_COUNT.
Proof.
  unfold Game.spawnEnemies.
  pose proof (spawnLoop_length ENEMY_COUNT [] (Game.rng g)) as Hl.
  destruct (Game.spawnLoop _ _ _ _ _ _) as [es n]. cbn in Hl. eauto.
Qed.

(** [with_particles] and [with_spawn] expose the result of a call of
    [addParticles] or [spawnEnemies] as the state with two fields set. *)
Ltac with_particles :=
  repeat match goal with
  | |- context [Game.addParticles random ?px ?py ?c ?g] =>
      let ps := fresh "ps" in
      let n := fresh "n" in
      let E := fresh "E" in
      destruct (addParticles_shape px py c g) as (ps & n & E);
      rewrite E; clear E
  end.

(** [gsimpl] reduces the projections of a state built by setters, and no
    arithmetic. *)
Ltac gsimpl :=
  cbn [fst snd Game.input Game.player Game.enemies Game.bullets
       Game.particles Game.score Game.lives Game.running Game.lastTime
       Game.statusText Game.scoreText Game.livesText Game.rng
       Game.set_input Game.set_player Game.set_enemies Game.set_bullets
       Game.set_particles Game.set_score Game.set_lives Game.set_running
       Game.set_lastTime Game.set_statusText Game.set_rng Game.syncHUD
       Game.gameOver Game.start Game.togglePause Game.respawnPlayer
       Game.updateParticles Game.draw Game.pruneBullets] in *.

Lemma enemyTurn_frame dt e g :
  let g' := snd (enemyTurn dt e g) in
  Game.lives g' = Game.lives g /\ Game.score g' = Game.score g
  /\ Game.running g' = Game.running g /\ Game.player g' = Game.player g
  /\ Game.input g' = Game.input g
  /\ (Game.bullets g' = Game.bullets g
      \/ exists b, Game.bullets g' = Game.bullets g ++ [b]
                   /\ Bullet.active b = true).
Proof.
  unfold Game.enemyTurn.
  destruct (Tank.update _ _ _ _ _ _ _) as [e1 n1].
  destruct (Rltb (random n1) _); cbn; [| tauto].
  unfold Tank.tryShoot. destruct (Rltb 0 _); cbn; [tauto |].
  repeat split. right. eexists. split; reflexivity.
Qed.

(** The bullets pushed by the enemies during one pass over the roster. *)
Lemma enemiesLoop_frame dt es g :
  let r := enemiesLoop dt es g in
  Game.lives (snd r) = Game.lives g /\ Game.score (snd r) = Game.score g
  /\ Game.running (snd r) = Game.running g
  /\ Game.player (snd r) = Game.player g
  /\ length (fst r) = length es
  /\ exists shots, Game.bullets (snd r) = Game.bullets g ++ shots
                   /\ Forall (fun b => Bullet.active b = true) shots.
Proof.
  revert g. induction es as [| e rest IH]; intros g; cbn.
  - repeat split. exists []. rewrite app_nil_r. split; constructor.
  - pose proof (enemyTurn_frame dt e g) as Ht.
    destruct (enemyTurn dt e g) as [e1 g1]. cbn in Ht.
    destruct Ht as (Hl & Hs & Hr & Hp & Hi & Hb).
    specialize (IH g1).
    destruct (enemiesLoop dt rest g1) as [rest1 g2]. cbn in *.
    destruct IH as (Hl2 & Hs2 & Hr2 & Hp2 & Hn2 & shots & Hb2 & Hact).
    repeat split; try congruence.
    destruct Hb as [Hb | (b & Hb & Hab)].
    + exists shots. split; [congruence | exact Hact].
    + exists (b :: shots). split.
      * rewrite Hb2, Hb, <- app_assoc. reflexivity.
      * constructor; assumption.
Qed.

Lemma movePhase_frame dt g :
  let m := movePhase dt g in
  Game.lives m = Game.lives g /\ Game.score m = Game.score g
  /\ Game.running m = Game.running g
  /\ length (Game.enemies m) = length (Game.enemies g)
  /\ exists shots,
       Game.bullets m
       = map (Bullet.update WIDTH HEIGHT) (Game.bullets g ++ shots)
       /\ Forall (fun b => Bullet.active b = true) shots.
Proof.
  unfold Game.movePhase.
  destruct (Tank.update _ _ _ _ _ _ _) as [p n].
  pose proof (enemiesLoop_frame dt (Game.enemies g)
                (Game.set_rng n (Game.set_player p g))) as Hl.
  cbn in Hl.
  destruct (enemiesLoop dt _ _) as [es g1]. cbn in *.
  destruct Hl as (Hl & Hs & Hr & _ & Hn & shots & Hb & Hact).
  repeat split; try assumption.
  exists shots. rewrite Hb. split; [reflexivity | exact Hact].
Qed.

(** The constructor leaves a full roster, three lives and an idle game. *)
Lemma new_state :
  let g := Game.new WIDTH HEIGHT random in
  length (Game.enemies g) = ENEMY_COUNT
  /\ Game.lives g = PLAYER_MAX_LIVES /\ Game.score g = 0%Z
  /\ Game.running g = false /\ Game.bullets g = [].
Proof.
  cbv zeta. unfold Game.new.
  match goal with
  | |- context [Game.spawnEnemies _ _ _ ?g0] =>
      destruct (spawnEnemies_shape g0) as (es & n & -> & Hl)
  end.
  gsimpl. repeat split. exact Hl.
Qed.

(** ** Firing (C10) *)

(** C10. A key-down of Space with the player's cooldown at zero appends one
    active bullet owned by the player to the bullet list, whatever the
    running flag (idle, paused, ended or running), and leaves the flag as it
    was. *)
Theorem space_fires_whenever_cooled g :
  Tank.cooldown (Game.player g) = 0 ->
  let p := Game.player g in
  let g' := step (Game.KeyDown "Space") g in
  let b := Bullet.new (Tank.x p + cos (Tank.angle p) * Tank.size p * 0.7)
                      (Tank.y p + sin (Tank.angle p) * Tank.size p * 0.7)
                      (Tank.angle p) "player" in
  Game.bullets g' = Game.bullets g ++ [b]
  /\ Bullet.owner b = "player"%string /\ Bullet.active b = true
  /\ Game.running g' = Game.running g
  /\ Tank.cooldown (Game.player g') = 40.
Proof.
  intros Hc p g' b. unfold g', b, p. cbn.
  unfold Game.keydown, Game.fire, Tank.tryShoot. cbn.
  rewrite Hc, (Rltb_false 0 0) by lra. cbn. repeat split.
Qed.

(** ** The roster is refilled (C6) *)

(** C6. At the end of [update] the roster left by the collision pass is kept
    when it is not empty and replaced by exactly five fresh enemies when it
    is empty; in both cases the roster is not empty when [update] returns. *)
Theorem update_refills_roster dt g :
  let c := handleCollisions (movePhase dt g) in
  length (Game.enemies (update dt g))
  = match Game.enemies c with
    | [] => 5%nat
    | _ :: _ => length (Game.enemies c)
    end
  /\ (0 < length (Game.enemies (update dt g)))%nat.
Proof.
  intros c. unfold Game.update. fold c.
  unfold Game.refill, Game.pruneBullets. cbn [Game.enemies Game.set_bullets].
  destruct (Game.enemies c) as [| e es] eqn:E.
  - destruct (spawnEnemies_shape
                (Game.set_bullets (filter Bullet.active (Game.bullets c)) c))
      as (es & n & Hs & Hl).
    rewrite Hs. cbn. rewrite Hl. unfold ENEMY_COUNT. lia.
  - cbn [Game.enemies Game.set_bullets]. rewrite E. cbn. lia.
Qed.

(** ** Collisions: the tank phase *)

Lemma filter_none {A} (f : A -> bool) l :
  existsb f l = false -> filter f l = [].
Proof.
  induction l as [| a l IH]; cbn; [reflexivity |].
  destruct (f a); cbn; [discriminate | exact IH].
Qed.

Lemma filter_all {A} (f : A -> bool) l :
  Forall (fun a => f a = true) l -> filter f l = l.
Proof.
  induction 1 as [| a l Ha _ IH]; cbn; [reflexivity |].
  rewrite Ha, IH. reflexivity.
Qed.

Lemma filter_split_length {A} (f : A -> bool) l :
  (length (filter (fun a => negb (f a)) l) + length (filter f l)
   = length l)%nat.
Proof.
  induction l as [| a l IH]; cbn; [reflexivity |].
  destruct (f a); cbn; lia.
Qed.

Lemma filter_kept {A} (f : A -> bool) l :
  Forall (fun a => f a = true) (filter f l).
Proof. apply Forall_forall. intros a Ha. apply filter_In in Ha. tauto. Qed.

Lemma marked_off_field e : Game.onField (Tank.set_x (-9999) e) = false.
Proof. unfold Game.onField. cbn. apply Rltb_false. lra. Qed.

Lemma hurt_refl g : hurt g g.
Proof. left. split; reflexivity. Qed.

Lemma hurt_trans g1 g2 g3 : hurt g1 g2 -> hurt g2 g3 -> hurt g1 g3.
Proof.
  unfold hurt.
  intros [[L1 R1] | [L1 R1]] [[L2 R2] | [L2 R2]].
  - left. split; congruence.
  - right. rewrite <- L1, <- R1. split; assumption.
  - right. rewrite L2, R2. split; assumption.
  - right. split; [lia |]. rewrite R2, R1.
    destruct (Z.leb_spec (Game.lives g3) 0); [reflexivity |].
    destruct (Z.leb_spec (Game.lives g2) 0); [lia | reflexivity].
Qed.

Lemma loseLife_spec s g :
  let g' := loseLife s g in
  Game.lives g' = (Game.lives g - 1)%Z
  /\ Game.score g' = Game.score g
  /\ Game.enemies g' = Game.enemies g
  /\ Game.bullets g' = Game.bullets g
  /\ Game.running g'
     = (if (Game.lives g - 1 <=? 0)%Z then false else Game.running g).
Proof.
  unfold Game.loseLife. cbn.
  destruct (Game.lives g - 1 <=? 0)%Z; [| destruct s]; cbn; repeat split.
Qed.

Lemma loseLife_hurt s g : hurt g (loseLife s g).
Proof.
  destruct (loseLife_spec s g) as (Hl & _ & _ & _ & Hr).
  right. rewrite Hl, Hr. split; [lia | reflexivity].
Qed.

Lemma ramLoop_spec es g c :
  let p := Game.player g in
  let r := ramLoop es g c in
  let es' := fst (fst r) in
  let g' := snd (fst r) in
  Game.lives g' = Game.lives g /\ Game.player g' = p
  /\ Game.bullets g' = Game.bullets g /\ Game.running g' = Game.running g
  /\ snd r = c || existsb (Game.ramTest p) es
  /\ Game.score g' = (Game.score g + 100 * Z.of_nat (rams p es))%Z
  /\ (Forall (fun e => Game.onField e = true) es ->
      filter Game.onField es'
      = filter (fun e => negb (Game.ramTest p e)) es)
  /\ (existsb (Game.ramTest p) es = false -> es' = es).
Proof.
  revert g c. induction es as [| e rest IH]; intros g c; cbn zeta.
  - cbn [Game.ramLoop existsb fst snd filter]. rewrite orb_false_r.
    unfold rams. cbn [filter length].
    repeat split; try reflexivity. lia.
  - cbn [Game.ramLoop existsb]. unfold rams. cbn [filter].
    destruct (Game.ramTest (Game.player g) e) eqn:Hram.
    + with_particles. gsimpl.
      match goal with
      | |- context [Game.ramLoop random rest ?g3 true] =>
          specialize (IH g3 true); cbn zeta in IH;
          destruct (Game.ramLoop random rest g3 true) as [[rest' g'] c']
      end.
      gsimpl. cbn [filter length negb].
      destruct IH as (Hl & Hp & Hb & Hr & Hc & Hs & Hf & _).
      repeat split; try assumption.
      * rewrite Hc, orb_true_r. reflexivity.
      * rewrite Hs. unfold rams. lia.
      * intros HF. inversion HF as [| e0 l0 He Hrest]; subst.
        rewrite marked_off_field. apply Hf, Hrest.
      * discriminate.
    + specialize (IH g c). cbn zeta in IH.
      destruct (ramLoop rest g c) as [[rest' g'] c'].
      gsimpl. cbn [filter length negb orb].
      destruct IH as (Hl & Hp & Hb & Hr & Hc & Hs & Hf & He).
      repeat split; try assumption.
      * intros HF. inversion HF as [| e0 l0 He0 Hrest]; subst.
        rewrite He0. rewrite (Hf Hrest). reflexivity.
      * intros Hn. rewrite (He Hn). reflexivity.
Qed.

Lemma ramPhase_spec g :
  let p := Game.player g in
  let es := Game.enemies g in
  let hit := existsb (Game.ramTest p) es in
  let g' := ramPhase g in
  Game.lives g' = (Game.lives g - (if hit then 1 else 0))%Z
  /\ Game.score g' = (Game.score g + 100 * Z.of_nat (rams p es))%Z
  /\ Game.bullets g' = Game.bullets g
  /\ hurt g g'
  /\ (Forall (fun e => Game.onField e = true) es ->
      (length (Game.enemies g') + rams p es = length es)%nat
      /\ Forall (fun e => Game.onField e = true) (Game.enemies g')).
Proof.
  intros p es hit g'. unfold g', Game.ramPhase.
  pose proof (ramLoop_spec es g false) as H. cbn zeta in H. fold es p in H.
  fold es. destruct (ramLoop es g false) as [[es' g1] c]. gsimpl.
  destruct H as (Hl & Hp & Hb & Hr & Hc & Hs & Hf & He).
  cbn [orb] in Hc. fold hit in Hc, He.
  subst c. destruct hit eqn:Hhit.
  - destruct (loseLife_spec (Some Game.Rammed)
                (Game.set_enemies (filter Game.onField es')
                   (Game.set_enemies es' g1)))
      as (Ll & Ls & Le & Lb & Lr).
    gsimpl.
    repeat split.
    + rewrite Ll, Hl. reflexivity.
    + rewrite Ls. exact Hs.
    + rewrite Lb. exact Hb.
    + right. rewrite Ll, Lr, Hl, Hr. split; [lia | reflexivity].
    + rewrite Le, (Hf H). unfold rams. apply filter_split_length.
    + rewrite Le. apply filter_kept.
  - gsimpl. rewrite (He eq_refl).
    repeat split; try assumption.
    + lia.
    + left. split; assumption.
    + unfold rams. unfold hit in Hhit. rewrite (filter_none _ _ Hhit).
      cbn [length]. lia.
Qed.

(** ** Collisions: the bullet phase *)

Lemma shotLoop_idle b es g :
  Bullet.active b = false -> shotLoop b es g = (b, es, g).
Proof.
  intros Hb. induction es as [| e rest IH]; cbn [Game.shotLoop].
  - reflexivity.
  - rewrite Hb. cbn [negb]. rewrite IH. reflexivity.
Qed.

Lemma shotLoop_spec b es g :
  Bullet.active b = true ->
  let hit := existsb (Game.shotTest b) es in
  let r := shotLoop b es g in
  let b' := fst (fst r) in
  let es' := snd (fst r) in
  let g' := snd r in
  Game.lives g' = Game.lives g /\ Game.player g' = Game.player g
  /\ Game.bullets g' = Game.bullets g /\ Game.running g' = Game.running g
  /\ b' = (if hit then Bullet.deactivate b else b)
  /\ Game.score g' = (Game.score g + (if hit then 100 else 0))%Z
  /\ incl (filter Game.onField es') es
  /\ (Forall (fun e => Game.onField e = true) es ->
      (length (filter Game.onField es') + (if hit then 1 else 0)
       = length es)%nat).
Proof.
  intros Hb. revert g. induction es as [| e rest IH]; intros g; cbn zeta.
  - cbn [Game.shotLoop existsb fst snd filter length].
    repeat split; try reflexivity; try lia. apply incl_refl.
  - cbn [Game.shotLoop existsb]. rewrite Hb. cbn [negb].
    destruct (Game.shotTest b e) eqn:Hshot; cbn [orb].
    + with_particles. rewrite shotLoop_idle by reflexivity.
      gsimpl. cbn [filter length]. rewrite marked_off_field.
      repeat split; try reflexivity.
      * intros a Ha. right. apply filter_In in Ha. tauto.
      * intros HF. inversion HF as [| e0 l0 He Hrest]; subst.
        rewrite (filter_all _ _ Hrest). lia.
    + specialize (IH g). cbn zeta in IH.
      destruct (shotLoop b rest g) as [[b1 rest1] g1].
      gsimpl. cbn [filter length].
      destruct IH as (Hl & Hp & Hbs & Hr & Hb1 & Hs & Hi & Hn).
      repeat split; try assumption.
      * destruct (Game.onField e); [| apply incl_tl; exact Hi].
        intros a [Ha | Ha]; [left; exact Ha | right; apply Hi, Ha].
      * intros HF. inversion HF as [| e0 l0 He Hrest]; subst.
        rewrite He. cbn [length]. specialize (Hn Hrest). lia.
Qed.

Lemma owner_player_not_enemy o :
  String.eqb o "player" = true -> String.eqb o "enemy" = false.
Proof. intros H. apply String.eqb_eq in H. subst o. reflexivity. Qed.

Lemma bulletTurn_spec b g :
  let r := bulletTurn b g in
  let b' := fst r in
  let g' := snd r in
  b' = (if shotLands b g || woundLands b g then Bullet.deactivate b else b)
  /\ Game.score g' = (Game.score g + (if shotLands b g then 100 else 0))%Z
  /\ Game.lives g' = (Game.lives g - (if woundLands b g then 1 else 0))%Z
  /\ Game.bullets g' = Game.bullets g
  /\ hurt g g'
  /\ incl (Game.enemies g') (Game.enemies g)
  /\ (Forall (fun e => Game.onField e = true) (Game.enemies g) ->
      (length (Game.enemies g') + (if shotLands b g then 1 else 0)
       = length (Game.enemies g))%nat
      /\ Forall (fun e => Game.onField e = true) (Game.enemies g')).
Proof.
  cbn zeta. unfold Game.bulletTurn, shotLands, woundLands.
  destruct (Bullet.active b) eqn:Hact; cbn [negb andb orb].
  - destruct (String.eqb (Bullet.owner b) "player") eqn:Ho.
    + rewrite (owner_player_not_enemy _ Ho). cbn [andb orb].
      pose proof (shotLoop_spec b (Game.enemies g) g Hact) as H.
      cbn zeta in H.
      destruct (shotLoop b (Game.enemies g) g) as [[b1 es1] g1].
      gsimpl. destruct H as (Hl & Hp & Hbs & Hr & Hb1 & Hs & Hi & Hn).
      rewrite orb_false_r.
      repeat split; try assumption.
      * lia.
      * left. split; assumption.
      * apply Hn, H.
      * apply filter_kept.
    + cbn [andb orb].
      destruct (String.eqb (Bullet.owner b) "enemy") eqn:He; cbn [andb].
      * destruct (Game.woundTest b (Game.player g)) eqn:Hw.
        -- with_particles. gsimpl.
           match goal with
           | |- context [Game.loseLife WIDTH HEIGHT None ?g1] =>
               pose proof (loseLife_hurt None g1) as Hh;
               destruct (loseLife_spec None g1) as (Ll & Ls & Le & Lb & Lr)
           end.
           gsimpl. rewrite Ll, Ls, Le, Lb.
           repeat split; try lia; try apply incl_refl; try assumption.
        -- gsimpl. repeat split; try lia; try apply incl_refl;
             try assumption. apply hurt_refl.
      * gsimpl. repeat split; try lia; try apply incl_refl;
          try assumption. apply hurt_refl.
  - gsimpl. repeat split; try lia; try apply incl_refl; try assumption.
    apply hurt_refl.
Qed.

Lemma spent_head b b1 g who :
  b1 = (if shotLands b g || woundLands b g then Bullet.deactivate b else b) ->
  (if Bullet.active b && negb (Bullet.active b1)
      && String.eqb (Bullet.owner b) who then 1 else 0)%nat
  = (if (shotLands b g || woundLands b g)
        && String.eqb (Bullet.owner b) who then 1 else 0)%nat.
Proof.
  intros ->. destruct (shotLands b g || woundLands b g) eqn:Hany.
  - assert (Ha : Bullet.active b = true).
    { unfold shotLands, woundLands in Hany.
      destruct (Bullet.active b); [reflexivity | discriminate]. }
    rewrite Ha. reflexivity.
  - destruct (Bullet.active b); reflexivity.
Qed.

Lemma lands_player b g :
  (if (shotLands b g || woundLands b g)
      && String.eqb (Bullet.owner b) "player" then 1 else 0)%nat
  = if shotLands b g then 1%nat else 0%nat.
Proof.
  unfold shotLands, woundLands.
  destruct (String.eqb (Bullet.owner b) "player") eqn:Ho;
    [rewrite (owner_player_not_enemy _ Ho) |];
    destruct (Bullet.active b), (existsb _ _), (Game.woundTest _ _);
    try destruct (String.eqb _ "enemy"); reflexivity.
Qed.

Lemma lands_enemy b g :
  (if (shotLands b g || woundLands b g)
      && String.eqb (Bullet.owner b) "enemy" then 1 else 0)%nat
  = if woundLands b g then 1%nat else 0%nat.
Proof.
  unfold shotLands, woundLands.
  destruct (String.eqb (Bullet.owner b) "player") eqn:Ho;
    [rewrite (owner_player_not_enemy _ Ho) |];
    destruct (Bullet.active b), (existsb _ _), (Game.woundTest _ _);
    try destruct (String.eqb _ "enemy"); reflexivity.
Qed.

Lemma loaded_cons who b rest :
  (loaded who (b :: rest)
   = (if Bullet.active b && String.eqb (Bullet.owner b) who
      then 1 else 0) + loaded who rest)%nat.
Proof.
  unfold loaded. cbn [filter].
  destruct (Bullet.active b && String.eqb (Bullet.owner b) who); reflexivity.
Qed.

Lemma bulletsLoop_spec bs g :
  let r := bulletsLoop bs g in
  let bs' := fst r in
  let g' := snd r in
  Game.score g'
  = (Game.score g + 100 * Z.of_nat (spent "player" bs bs'))%Z
  /\ Game.lives g' = (Game.lives g - Z.of_nat (spent "enemy" bs bs'))%Z
  /\ Game.bullets g' = Game.bullets g
  /\ hurt g g'
  /\ Forall2 (fun b b' => b' = b
                \/ (Bullet.active b = true /\ b' = Bullet.deactivate b))
             bs bs'
  /\ (spent "enemy" bs bs' <= loaded "enemy" bs)%nat
  /\ (spent "player" bs bs' <= loaded "player" bs)%nat
  /\ incl (Game.enemies g') (Game.enemies g)
  /\ (Forall (fun e => Game.onField e = true) (Game.enemies g) ->
      (length (Game.enemies g') + spent "player" bs bs'
       = length (Game.enemies g))%nat
      /\ Forall (fun e => Game.onField e = true) (Game.enemies g')).
Proof.
  revert g. induction bs as [| b rest IH]; intros g; cbn zeta.
  - cbn [Game.bulletsLoop fst snd spent]. unfold loaded. cbn [filter length].
    repeat split; try lia; try assumption.
    + apply hurt_refl.
    + constructor.
    + apply incl_refl.
  - cbn [Game.bulletsLoop].
    pose proof (bulletTurn_spec b g) as Ht. cbn zeta in Ht.
    destruct (bulletTurn b g) as [b1 g1]. cbn [fst snd] in Ht.
    specialize (IH g1). cbn zeta in IH.
    destruct (bulletsLoop rest g1) as [rest1 g2]. cbn [fst snd] in *.
    destruct Ht as (Tb & Ts & Tl & Tbs & Th & Ti & Tn).
    destruct IH as (Is & Il & Ibs & Ih & If & Ile & Ilp & Ii & In_).
    pose proof (fun who => spent_head b b1 g who Tb) as Hcount.
    pose proof (lands_player b g) as Hplayer.
    pose proof (lands_enemy b g) as Henemy.
    cbn [spent]. rewrite !Hcount, Hplayer, Henemy.
    rewrite !loaded_cons.
    repeat split.
    + rewrite Is, Ts. destruct (shotLands b g); lia.
    + rewrite Il, Tl. destruct (woundLands b g); lia.
    + congruence.
    + eapply hurt_trans; eassumption.
    + constructor; [| exact If].
      rewrite Tb. destruct (_ || _) eqn:Hany; [right | left; reflexivity].
      split; [| reflexivity].
      unfold shotLands, woundLands in Hany.
      destruct (Bullet.active b); [reflexivity | discriminate].
    + unfold woundLands.
      destruct (Bullet.active b); cbn [andb]; [| lia].
      destruct (String.eqb (Bullet.owner b) "enemy"); cbn [andb]; [| lia].
      destruct (Game.woundTest _ _); lia.
    + unfold shotLands.
      destruct (Bullet.active b); cbn [andb]; [| lia].
      destruct (String.eqb (Bullet.owner b) "player"); cbn [andb]; [| lia].
      destruct (existsb _ _); lia.
    + eapply incl_tran; eassumption.
    + destruct (Tn H) as [Tn1 Tn2]. destruct (In_ Tn2) as [In1 In2].
      destruct (shotLands b g); lia.
    + destruct (Tn H) as [Tn1 Tn2]. destruct (In_ Tn2) as [In1 In2].
      exact In2.
Qed.

(** ** Collisions: the whole pass *)

Lemma handleCollisions_spec g :
  let p := Game.player g in
  let es := Game.enemies g in
  let g' := handleCollisions g in
  let bs := Game.bullets g in
  let bs' := Game.bullets g' in
  Game.score g'
  = (Game.score g
     + 100 * (Z.of_nat (rams p es) + Z.of_nat (spent "player" bs bs')))%Z
  /\ Game.lives g'
     = (Game.lives g - (if existsb (Game.ramTest p) es then 1 else 0)
        - Z.of_nat (spent "enemy" bs bs'))%Z
  /\ hurt g g'
  /\ Forall2 (fun b b' => b' = b
                \/ (Bullet.active b = true /\ b' = Bullet.deactivate b))
             bs bs'
  /\ (spent "enemy" bs bs' <= loaded "enemy" bs)%nat
  /\ (spent "player" bs bs' <= loaded "player" bs)%nat
  /\ (Forall (fun e => Game.onField e = true) es ->
      (length (Game.enemies g') + rams p es + spent "player" bs bs'
       = length es)%nat
      /\ Forall (fun e => Game.onField e = true) (Game.enemies g')).
Proof.
  cbn zeta. unfold Game.handleCollisions, Game.bulletPhase.
  destruct (ramPhase_spec g) as (Rl & Rs & Rb & Rh & Rn). cbn zeta in *.
  pose proof (bulletsLoop_spec (Game.bullets (ramPhase g)) (ramPhase g)) as H.
  cbn zeta in H.
  destruct (bulletsLoop (Game.bullets (ramPhase g)) (ramPhase g))
    as [bs1 g1].
  gsimpl. rewrite Rb in H.
  destruct H as (Bs & Bl & _ & Bh & Bf & Ble & Blp & _ & Bn).
  repeat split; try assumption.
  - rewrite Bs, Rs. lia.
  - rewrite Bl, Rl. reflexivity.
  - eapply hurt_trans; eassumption.
  - destruct (Rn H) as [Rn1 Rn2]. destruct (Bn Rn2) as [Bn1 _]. lia.
  - destruct (Rn H) as [Rn1 Rn2]. destruct (Bn Rn2) as [_ Bn2]. exact Bn2.
Qed.

Lemma refill_frame g :
  Game.lives (Game.refill WIDTH HEIGHT random g) = Game.lives g
  /\ Game.score (Game.refill WIDTH HEIGHT random g) = Game.score g
  /\ Game.running (Game.refill WIDTH HEIGHT random g) = Game.running g
  /\ Game.bullets (Game.refill WIDTH HEIGHT random g) = Game.bullets g
  /\ Game.player (Game.refill WIDTH HEIGHT random g) = Game.player g.
Proof.
  unfold Game.refill. destruct (Game.enemies g).
  - destruct (spawnEnemies_shape g) as (es & n & -> & _). gsimpl.
    repeat split.
  - repeat split.
Qed.

Lemma update_frame dt g :
  let c := handleCollisions (movePhase dt g) in
  Game.lives (update dt g) = Game.lives c
  /\ Game.score (update dt g) = Game.score c
  /\ Game.running (update dt g) = Game.running c
  /\ Game.bullets (update dt g) = filter Bullet.active (Game.bullets c).
Proof.
  intros c. unfold Game.update. fold c.
  destruct (refill_frame (Game.pruneBullets c)) as (Hl & Hs & Hr & Hb & _).
  rewrite Hl, Hs, Hr, Hb. gsimpl. repeat split.
Qed.

(** The enemies moved by [update] are on the field when the collision pass
    starts, on a canvas wider than half a tank. *)
Lemma enemyTurn_x dt e g :
  exists v,
    Tank.x (fst (enemyTurn dt e g))
    = clamp v (Tank.size e / 2) (WIDTH - Tank.size e / 2).
Proof.
  unfold Game.enemyTurn. rewrite Tank_update_eq. cbv beta iota zeta.
  destruct (Rltb (random _) _).
  - unfold Tank.tryShoot. destruct (Rltb 0 _); cbn; eexists; reflexivity.
  - cbn. eexists; reflexivity.
Qed.

Lemma enemiesLoop_onField dt es g :
  Forall (fun e => 0 < Tank.size e / 2 <= WIDTH - Tank.size e / 2) es ->
  Forall (fun e => Game.onField e = true) (fst (enemiesLoop dt es g)).
Proof.
  revert g. induction es as [| e rest IH]; intros g HF; cbn [Game.enemiesLoop].
  - constructor.
  - inversion HF as [| e0 l0 He Hrest]; subst.
    destruct (enemyTurn_x dt e g) as [v Hv].
    destruct (enemyTurn dt e g) as [e1 g1]. cbn [fst] in Hv.
    specialize (IH g1 Hrest).
    destruct (enemiesLoop dt rest g1) as [rest1 g2]. cbn [fst] in *.
    constructor; [| exact IH].
    unfold Game.onField. rewrite Hv. apply Rltb_true.
    pose proof (clamp_range v (Tank.size e / 2) (WIDTH - Tank.size e / 2)).
    lra.
Qed.

Lemma movePhase_onField dt g :
  Forall (fun e => 0 < Tank.size e / 2 <= WIDTH - Tank.size e / 2)
         (Game.enemies g) ->
  Forall (fun e => Game.onField e = true) (Game.enemies (movePhase dt g)).
Proof.
  intros HF. unfold Game.movePhase.
  destruct (Tank.update _ _ _ _ _ _ _) as [p n].
  pose proof (enemiesLoop_onField dt (Game.enemies g)
                (Game.set_rng n (Game.set_player p g)) HF) as H.
  gsimpl.
  destruct (enemiesLoop dt (Game.enemies g) _) as [es g1]. gsimpl.
  exact H.
Qed.

Lemma bulletPhase_spec g :
  let g' := bulletPhase g in
  let bs := Game.bullets g in
  let bs' := Game.bullets g' in
  Game.score g' = (Game.score g + 100 * Z.of_nat (spent "player" bs bs'))%Z
  /\ (Forall (fun e => Game.onField e = true) (Game.enemies g) ->
      (length (Game.enemies g') + spent "player" bs bs'
       = length (Game.enemies g))%nat).
Proof.
  cbn zeta. unfold Game.bulletPhase.
  pose proof (bulletsLoop_spec (Game.bullets g) g) as H. cbn zeta in H.
  destruct (bulletsLoop (Game.bullets g) g) as [bs1 g1]. gsimpl.
  destruct H as (Bs & _ & _ & _ & _ & _ & _ & _ & Bn).
  split; [exact Bs |]. intros HF. apply (Bn HF).
Qed.

Lemma reset_spec g :
  Game.score (reset g) = 0%Z /\ Game.lives (reset g) = PLAYER_MAX_LIVES
  /\ Game.running (reset g) = false /\ Game.bullets (reset g) = [].
Proof.
  unfold Game.reset.
  match goal with
  | |- context [Game.spawnEnemies _ _ _ ?g0] =>
      destruct (spawnEnemies_shape g0) as (es & n & -> & _)
  end.
  gsimpl. repeat split.
Qed.

Lemma fire_frame g :
  Game.score (Game.fire g) = Game.score g
  /\ Game.lives (Game.fire g) = Game.lives g
  /\ Game.running (Game.fire g) = Game.running g
  /\ (Game.bullets (Game.fire g) = Game.bullets g
      \/ exists b, Game.bullets (Game.fire g) = Game.bullets g ++ [b]
                   /\ Bullet.active b = true).
Proof.
  unfold Game.fire, Tank.tryShoot. destruct (Rltb 0 _); gsimpl.
  - repeat split. left. reflexivity.
  - repeat split. right. eexists. split; reflexivity.
Qed.

(** ** Lives (C1) *)

Lemma lives_after_update dt g :
  let m := movePhase dt g in
  let c := handleCollisions m in
  let rammed := existsb (Game.ramTest (Game.player m)) (Game.enemies m) in
  let wounds := spent "enemy" (Game.bullets m) (Game.bullets c) in
  Game.lives (update dt g)
  = (Game.lives g - (if rammed then 1 else 0) - Z.of_nat wounds)%Z
  /\ (wounds <= loaded "enemy" (Game.bullets m))%nat.
Proof.
  intros m c rammed wounds.
  destruct (update_frame dt g) as (Hl & _). cbn zeta in Hl. fold m c in Hl.
  destruct (handleCollisions_spec m) as (_ & Cl & _ & _ & Cle & _).
  cbn zeta in Cl, Cle. fold c rammed wounds in Cl, Cle.
  destruct (movePhase_frame dt g) as (Ml & _). cbn zeta in Ml. fold m in Ml.
  split; [| exact Cle]. rewrite Hl, Cl, Ml. reflexivity.
Qed.

(** ** Score (C7) *)

Lemma step_score ev g :
  (Game.score g <= Game.score (step ev g))%Z
  \/ (resets ev = true /\ Game.score (step ev g) = 0%Z).
Proof.
  destruct ev as [code | code | | | | | | t]; cbn [Game.step resets].
  - unfold Game.keydown.
    destruct (String.eqb code "KeyR") eqn:Hr.
    + right. split; [reflexivity |].
      match goal with
      | |- context [Game.reset _ _ _ ?x] =>
          destruct (reset_spec x) as (Hs & _); exact Hs
      end.
    + left. destruct (String.eqb code "Space").
      * destruct (fire_frame (Game.set_input
                    (Input.keydown (Game.input g) code) g)) as (Hs & _).
        rewrite Hs. gsimpl. lia.
      * gsimpl. lia.
  - left. gsimpl. lia.
  - left. gsimpl. lia.
  - left. gsimpl. lia.
  - left. gsimpl. lia.
  - right. split; [reflexivity |].
    destruct (reset_spec g) as (Hs & _); exact Hs.
  - left. gsimpl. lia.
  - left. unfold Game.loop. gsimpl. destruct (Game.running g); gsimpl.
    + destruct (update_frame (t - Game.lastTime g) (Game.set_lastTime t g))
        as (_ & Hs & _).
      cbn zeta in Hs. rewrite Hs.
      destruct (handleCollisions_spec
                  (movePhase (t - Game.lastTime g) (Game.set_lastTime t g)))
        as (Cs & _).
      cbn zeta in Cs. rewrite Cs.
      destruct (movePhase_frame (t - Game.lastTime g)
                  (Game.set_lastTime t g)) as (_ & Ms & _).
      cbn zeta in Ms. rewrite Ms. gsimpl. lia.
    + lia.
Qed.

(** C7. In one collision pass over a roster that is on the field, the
    enemies removed are those rammed by the player and those shot by a
    player bullet, and the score grows by 100 for each of them; this is the
    pass made by [update] on a canvas that holds a tank.  No event lowers
    the score except one that calls [reset], which sets it to 0. *)
Theorem score_counts_kills :
  (forall g,
     Forall (fun e => Game.onField e = true) (Game.enemies g) ->
     let g' := handleCollisions g in
     let rammed := rams (Game.player g) (Game.enemies g) in
     let shot := spent "player" (Game.bullets g) (Game.bullets g') in
     (length (Game.enemies g)
      = length (Game.enemies g') + rammed + shot)%nat
     /\ Game.score g'
        = (Game.score g
           + 100 * (Z.of_nat (length (Game.enemies g))
                    - Z.of_nat (length (Game.enemies g'))))%Z)
  /\ (forall dt g,
       Forall (fun e => 0 < Tank.size e / 2 <= WIDTH - Tank.size e / 2)
              (Game.enemies g) ->
       let c := handleCollisions (movePhase dt g) in
       Game.score (update dt g)
       = (Game.score g
          + 100 * (Z.of_nat (length (Game.enemies g))
                   - Z.of_nat (length (Game.enemies c))))%Z)
  /\ (forall ev g,
       (Game.score g <= Game.score (step ev g))%Z
       \/ (resets ev = true /\ Game.score (step ev g) = 0%Z)).
Proof.
  split; [| split].
  - intros g HF g' rammed shot.
    destruct (handleCollisions_spec g) as (Cs & _ & _ & _ & _ & _ & Cn).
    cbn zeta in Cs, Cn. fold g' rammed shot in Cs, Cn.
    destruct (Cn HF) as [Hn _]. split; [lia |]. rewrite Cs. lia.
  - intros dt g HF c.
    destruct (update_frame dt g) as (_ & Hs & _). cbn zeta in Hs.
    fold c in Hs. rewrite Hs.
    destruct (handleCollisions_spec (movePhase dt g))
      as (Cs & _ & _ & _ & _ & _ & Cn).
    cbn zeta in Cs, Cn. fold c in Cs, Cn.
    destruct (Cn (movePhase_onField dt g HF)) as [Hn _].
    destruct (movePhase_frame dt g) as (_ & Ms & _ & Mn & _).
    cbn zeta in Ms, Mn. rewrite Cs, Ms. lia.
  - apply step_score.
Qed.

(** ** Game over (C3) *)

Lemma hurt_game_over g g' :
  hurt g g' -> (Game.lives g' < Game.lives g)%Z -> (Game.lives g' <= 0)%Z ->
  Game.running g' = false.
Proof.
  intros [[Hl _] | [_ Hr]] Hlt Hle; [lia |].
  rewrite Hr. destruct (Z.leb_spec (Game.lives g') 0); [reflexivity | lia].
Qed.

Lemma update_hurt dt g : hurt g (update dt g).
Proof.
  destruct (update_frame dt g) as (Hl & _ & Hr & _). cbn zeta in Hl, Hr.
  destruct (handleCollisions_spec (movePhase dt g)) as (_ & _ & Hh & _).
  cbn zeta in Hh.
  destruct (movePhase_frame dt g) as (Ml & _ & Mr & _). cbn zeta in Ml, Mr.
  unfold hurt in *. rewrite Hl, Hr, <- Ml, <- Mr. exact Hh.
Qed.

Lemma loop_idle t g :
  Game.running g = false -> loop t g = Game.draw (Game.set_lastTime t g).
Proof. intros Hr. unfold Game.loop. gsimpl. rewrite Hr. reflexivity. Qed.

(** C3, as the code has it.  When a collision pass, and so a call of
    [update], takes lives and leaves none, it leaves [running] false.  While
    [running] is false a frame updates no tank, no bullet, no score and no
    lives.  [running] goes from false to true only on an event that calls
    [start] or [togglePause], and every such event does set it, whatever the
    lives; an event that calls [reset] leaves it false. *)
Theorem game_over_until_resumed :
  (forall g,
     (Game.lives (handleCollisions g) < Game.lives g)%Z ->
     (Game.lives (handleCollisions g) <= 0)%Z ->
     Game.running (handleCollisions g) = false)
  /\ (forall dt g,
       (Game.lives (update dt g) < Game.lives g)%Z ->
       (Game.lives (update dt g) <= 0)%Z ->
       Game.running (update dt g) = false)
  /\ (forall t g,
       Game.running g = false ->
       let g' := step (Game.Frame t) g in
       Game.player g' = Game.player g /\ Game.enemies g' = Game.enemies g
       /\ Game.bullets g' = Game.bullets g /\ Game.score g' = Game.score g
       /\ Game.lives g' = Game.lives g /\ Game.running g' = false)
  /\ (forall ev g,
       Game.running g = false -> Game.running (step ev g) = true ->
       resumes ev = true)
  /\ (forall ev g,
       resumes ev = true -> Game.running g = false ->
       Game.running (step ev g) = true)
  /\ (forall ev g, resets ev = true -> Game.running (step ev g) = false).
Proof.
  split; [| split; [| split; [| split; [| split]]]].
  - intros g. apply hurt_game_over.
    destruct (handleCollisions_spec g) as (_ & _ & Hh & _). exact Hh.
  - intros dt g. apply hurt_game_over, update_hurt.
  - intros t g Hr g'. unfold g'. cbn [Game.step]. rewrite (loop_idle t g Hr).
    gsimpl. repeat split. exact Hr.
  - intros ev g Hr Hon.
    destruct ev as [code | code | | | | | | t]; cbn [Game.step resumes] in *;
      try reflexivity; exfalso.
    + unfold Game.keydown in Hon.
      destruct (String.eqb code "KeyR").
      * match type of Hon with
        | context [Game.reset _ _ _ ?x] =>
            destruct (reset_spec x) as (_ & _ & Hx & _)
        end.
        congruence.
      * destruct (String.eqb code "Space").
        -- destruct (fire_frame (Game.set_input
                       (Input.keydown (Game.input g) code) g))
             as (_ & _ & Hx & _).
           rewrite Hx in Hon. gsimpl. congruence.
        -- gsimpl. congruence.
    + gsimpl. congruence.
    + destruct (reset_spec g) as (_ & _ & Hx & _). congruence.
    + rewrite (loop_idle t g Hr) in Hon. gsimpl. congruence.
  - intros ev g Hres Hr.
    destruct ev as [code | code | | | | | | t]; cbn [Game.step resumes] in *;
      try discriminate; gsimpl; try reflexivity.
    rewrite Hr. reflexivity.
  - intros ev g Hres.
    destruct ev as [code | code | | | | | | t]; cbn [Game.step resets] in *;
      try discriminate.
    + unfold Game.keydown. rewrite Hres.
      match goal with
      | |- context [Game.reset _ _ _ ?x] =>
          destruct (reset_spec x) as (_ & _ & Hx & _); exact Hx
      end.
    + destruct (reset_spec g) as (_ & _ & Hx & _); exact Hx.
Qed.

(** ** The active flag of a bullet (C8) *)

Lemma outside_spec px py :
  Bullet.outside WIDTH HEIGHT px py = true
  <-> (px < -10 \/ WIDTH + 10 < px \/ py < -10 \/ HEIGHT + 10 < py).
Proof.
  unfold Bullet.outside. rewrite !orb_true_iff, !Rltb_spec. tauto.
Qed.

Lemma Forall2_map_stays (f : Bullet.t -> Bullet.t) bs :
  (forall b, Bullet.active b = false -> Bullet.active (f b) = false) ->
  Forall2 (fun b b' => Bullet.active b = false -> Bullet.active b' = false)
          bs (map f bs).
Proof.
  intros Hf. induction bs as [| b bs IH]; cbn; constructor; auto.
Qed.

Lemma Forall2_stays_trans bs1 bs2 bs3 :
  Forall2 (fun b b' => Bullet.active b = false -> Bullet.active b' = false)
          bs1 bs2 ->
  Forall2 (fun b b' => b' = b
             \/ (Bullet.active b = true /\ b' = Bullet.deactivate b))
          bs2 bs3 ->
  Forall2 (fun b b' => Bullet.active b = false -> Bullet.active b' = false)
          bs1 bs3.
Proof.
  intros H12. revert bs3. induction H12 as [| a b l1 l2 Hab _ IH];
    intros bs3 H23; inversion H23 as [| b0 c l0 l3 Hbc Hrest]; subst;
    constructor.
  - intros Ha. destruct Hbc as [-> | [_ ->]]; [auto | reflexivity].
  - apply IH, Hrest.
Qed.

Lemma update_stays b :
  Bullet.active b = false ->
  Bullet.active (Bullet.update WIDTH HEIGHT b) = false.
Proof.
  intros Hb. unfold Bullet.update. cbn. rewrite Hb.
  destruct (Bullet.outside _ _ _ _); reflexivity.
Qed.

(** ** The roster made by [spawnEnemies], and [reset] *)

Lemma spawnLoop_spec (P : Tank.t -> Prop) i es n :
  Forall P es ->
  (forall m,
     P (Tank.set_angle (random (m + 2) * PI * 2)
          (Tank.new (60 + random m * (WIDTH - 120))
                    (60 + random (m + 1) * (HEIGHT / 2 - 60))
                    "#ffb347" false))) ->
  Forall P (fst (Game.spawnLoop WIDTH HEIGHT random i es n))
  /\ snd (Game.spawnLoop WIDTH HEIGHT random i es n) = (n + 3 * i)%nat.
Proof.
  intros Hes Hnew. revert es n Hes.
  induction i as [| i IH]; intros es n Hes; cbn [Game.spawnLoop fst snd].
  - split; [exact Hes | lia].
  - destruct (IH (es ++ [Tank.set_angle (random (n + 2) * PI * 2)
                           (Tank.new (60 + random n * (WIDTH - 120))
                              (60 + random (n + 1) * (HEIGHT / 2 - 60))
                              "#ffb347" false)]) (n + 3)%nat) as [H1 H2].
    + apply Forall_app. split; [exact Hes |]. constructor; [apply Hnew |].
      constructor.
    + split; [exact H1 | rewrite H2; lia].
Qed.

Lemma spawn_in_range r lo span :
  0 <= r < 1 -> 0 <= span -> lo <= lo + r * span <= lo + span.
Proof. intros Hr Hs. nra. Qed.

(** On a canvas of at least 120 by 120, with draws in [0, 1),
    [spawnEnemies] replaces the roster by five enemies, each in the upper
    half of the canvas at least 60 from the left, right and upper sides,
    ready to shoot and with a timer that has run out; it makes 15 draws and
    changes nothing else. *)
Theorem spawnEnemies_roster g :
  fair random -> 120 <= WIDTH -> 120 <= HEIGHT ->
  let g' := spawnEnemies g in
  length (Game.enemies g') = 5%nat
  /\ Forall (freshEnemy WIDTH HEIGHT) (Game.enemies g')
  /\ Game.rng g' = (Game.rng g + 15)%nat
  /\ g' = Game.set_rng (Game.rng g') (Game.set_enemies (Game.enemies g') g).
Proof.
  intros Hf HW HH. cbn zeta. unfold Game.spawnEnemies.
  pose proof (spawnLoop_length ENEMY_COUNT [] (Game.rng g)) as Hl.
  destruct (spawnLoop_spec (freshEnemy WIDTH HEIGHT) ENEMY_COUNT []
              (Game.rng g)) as [HF Hn].
  { constructor. }
  { intros m. unfold freshEnemy. cbn.
    assert (Hw : 0 <= WIDTH - 120) by lra.
    assert (Hh : 0 <= HEIGHT / 2 - 60) by lra.
    pose proof (spawn_in_range (random m) 60 (WIDTH - 120) (Hf m) Hw).
    pose proof (spawn_in_range (random (m + 1)) 60 (HEIGHT / 2 - 60)
                  (Hf (m + 1)%nat) Hh).
    repeat split; try reflexivity; lra. }
  destruct (Game.spawnLoop _ _ _ _ _ _) as [es n]. cbn [fst snd] in *.
  gsimpl. repeat split; assumption.
Qed.

(** [reset] puts the player back on the spawn point with a fresh tank,
    empties the bullets and the particles, sets the score to 0 and the lives
    to 3, makes a roster of five, stops the game and shows all of it on the
    page; the held keys and the time of the last frame are kept. *)
Theorem reset_outcome g :
  let g' := reset g in
  Game.player g' = Game.newPlayer WIDTH HEIGHT
  /\ Game.bullets g' = [] /\ Game.particles g' = []
  /\ Game.score g' = 0%Z /\ Game.lives g' = 3%Z
  /\ length (Game.enemies g') = 5%nat
  /\ Game.running g' = false /\ Game.statusText g' = Game.Idle
  /\ Game.scoreText g' = 0%Z /\ Game.livesText g' = 3%Z
  /\ Game.input g' = Game.input g /\ Game.lastTime g' = Game.lastTime g.
Proof.
  cbn zeta. unfold Game.reset.
  match goal with
  | |- context [Game.spawnEnemies _ _ _ ?g0] =>
      destruct (spawnEnemies_shape g0) as (es & n & -> & Hl)
  end.
  gsimpl. repeat split. exact Hl.
Qed.

(** ** Particles *)

Lemma addParticlesLoop_spec (P : Particle.t -> Prop) i px py c ps n :
  (forall m,
     P (Particle.mk px py ((random m * 2 - 1) * 2)
          ((random (m + 1) * 2 - 1) * 2) (30 + random (m + 2) * 20) c)) ->
  exists burst,
    fst (Game.addParticlesLoop random i px py c ps n) = ps ++ burst
    /\ length burst = i /\ Forall P burst
    /\ snd (Game.addParticlesLoop random i px py c ps n) = (n + 3 * i)%nat.
Proof.
  intros Hnew. revert ps n.
  induction i as [| i IH]; intros ps n; cbn [Game.addParticlesLoop].
  - exists []. rewrite app_nil_r. cbn. repeat split; [constructor | lia].
  - destruct (IH (ps ++ [Particle.mk px py ((random n * 2 - 1) * 2)
                           ((random (n + 1) * 2 - 1) * 2)
                           (30 + random (n + 2) * 20) c]) (n + 3)%nat)
      as (burst & H1 & H2 & H3 & H4).
    eexists (_ :: burst). rewrite H1, <- app_assoc. cbn [app length].
    repeat split; [congruence | constructor; [apply Hnew | exact H3] |].
    rewrite H4. lia.
Qed.

(** With draws in [0, 1), [addParticles] appends ten particles to the
    list, all at the given place and of the given colour, with a life in
    [30, 50) and a velocity in [-2, 2) on each axis; it makes 30 draws and
    changes nothing else. *)
Theorem addParticles_burst px py c g :
  fair random ->
  let g' := addParticles px py c g in
  exists burst,
    Game.particles g' = Game.particles g ++ burst
    /\ length burst = 10%nat /\ Forall (spark px py c) burst
    /\ Game.rng g' = (Game.rng g + 30)%nat
    /\ g' = Game.set_rng (Game.rng g')
              (Game.set_particles (Game.particles g') g).
Proof.
  intros Hf. cbn zeta. unfold Game.addParticles.
  destruct (addParticlesLoop_spec (spark px py c) 10 px py c
              (Game.particles g) (Game.rng g))
    as (burst & H1 & H2 & H3 & H4).
  { intros m. unfold spark. cbn.
    pose proof (Hf m). pose proof (Hf (m + 1)%nat).
    pose proof (Hf (m + 2)%nat). repeat split; try reflexivity; lra. }
  destruct (Game.addParticlesLoop _ _ _ _ _ _ _) as [ps n].
  cbn [fst snd] in *. gsimpl. exists burst.
  repeat split; assumption.
Qed.

Lemma filter_map_swap {A B} (f : B -> bool) (h : A -> B) l :
  filter f (map h l) = map h (filter (fun a => f (h a)) l).
Proof.
  induction l as [| a l IH]; cbn; [reflexivity |].
  destruct (f (h a)); cbn; rewrite IH; reflexivity.
Qed.

Lemma filter_filter_implied {A} (f h : A -> bool) l :
  (forall a, f a = true -> h a = true) ->
  filter f (filter h l) = filter f l.
Proof.
  intros Himp. induction l as [| a l IH]; cbn; [reflexivity |].
  destruct (h a) eqn:Hh; cbn.
  - rewrite IH. reflexivity.
  - destruct (f a) eqn:Hf; [| exact IH].
    rewrite (Himp a Hf) in Hh. discriminate.
Qed.

Lemma Rltb_iff a b c d : (a < b <-> c < d) -> Rltb a b = Rltb c d.
Proof.
  intros H. destruct (Rltb c d) eqn:E.
  - apply Rltb_spec, H, Rltb_spec, E.
  - destruct (Rltb a b) eqn:E'; [| reflexivity].
    apply Rltb_spec, H, Rltb_spec in E'. congruence.
Qed.

Lemma advance_age n p : Particle.advance (age n p) = age (S n) p.
Proof.
  unfold Particle.advance, age. rewrite S_INR. cbn. f_equal; ring.
Qed.

Lemma age_one p : Particle.advance p = age 1 p.
Proof. unfold Particle.advance, age. cbn. f_equal; ring. Qed.

(** After [n + 1] frames drawn, the particles left are those whose life
    exceeded [n + 1], each moved [n + 1] times by its velocity and aged by
    [n + 1]; drawing changes nothing else in the state, so a burst is gone
    after 50 frames. *)
Theorem particles_fade n g :
  redraw (S n) g
  = Game.set_particles
      (map (age (S n))
           (filter (fun p => Rltb (INR (S n)) (Particle.life p))
                   (Game.particles g))) g.
Proof.
  induction n as [| n IH].
  - cbn [redraw]. unfold Game.draw, Game.updateParticles.
    rewrite filter_map_swap. f_equal.
    rewrite (map_ext _ _ age_one). f_equal.
    apply filter_ext. intros p. apply Rltb_iff. cbn. lra.
  - change (redraw (S (S n)) g) with (Game.draw (redraw (S n) g)).
    rewrite IH. unfold Game.draw, Game.updateParticles.
    change (Game.particles (Game.set_particles ?a g)) with a.
    change (Game.set_particles ?a (Game.set_particles ?b g))
      with (Game.set_particles a g).
    rewrite map_map, (map_ext _ _ (advance_age (S n))), filter_map_swap.
    rewrite filter_filter_implied.
    + f_equal. f_equal. apply filter_ext. intros p. apply Rltb_iff.
      unfold age. cbn [Particle.life]. lra.
    + intros p Hp. apply Rltb_spec in Hp. apply Rltb_spec.
      unfold age in Hp. cbn [Particle.life] in Hp. rewrite S_INR in Hp. lra.
Qed.

(** ** The moves of a frame *)

Lemma set_bullets_same g : Game.set_bullets (Game.bullets g) g = g.
Proof. destruct g; reflexivity. Qed.

Lemma set_enemies_same g : Game.set_enemies (Game.enemies g) g = g.
Proof. destruct g; reflexivity. Qed.

Lemma enemyTurn_fields dt e g :
  let r := enemyTurn dt e g in
  steered WIDTH HEIGHT e (fst r)
  /\ exists bs n',
       snd r = Game.set_bullets bs (Game.set_rng n' g)
       /\ (bs = Game.bullets g
           \/ exists bx by_ d,
                bs = Game.bullets g ++ [Bullet.new bx by_ d "enemy"]).
Proof.
  cbn zeta. unfold Game.enemyTurn.
  pose proof (Tank_update_steered WIDTH HEIGHT random dt (Game.input g) e
                (Game.rng g)) as Hs.
  destruct (Tank.update _ _ _ _ _ _ _) as [e1 n1]. cbn [fst] in Hs.
  destruct (Rltb (random n1) _).
  - unfold Tank.tryShoot. gsimpl. destruct (Rltb 0 _); cbn [fst snd].
    + split; [exact Hs |]. eexists _, _. split; [reflexivity |].
      left. reflexivity.
    + split.
      * unfold steered in *. cbn. destruct Hs as (H1 & H2 & H3 & H4 & H5).
        repeat split; try assumption. lra.
      * eexists _, _. split; [reflexivity |]. right.
        eexists _, _, _. reflexivity.
  - cbn [fst snd]. split; [exact Hs |].
    exists (Game.bullets g), (S n1). split; [| left; reflexivity].
    destruct g; reflexivity.
Qed.

Lemma enemiesLoop_fields dt es g :
  let r := enemiesLoop dt es g in
  Forall2 (steered WIDTH HEIGHT) es (fst r)
  /\ exists shots n',
       snd r = Game.set_bullets (Game.bullets g ++ shots) (Game.set_rng n' g)
       /\ (length shots <= length es)%nat
       /\ Forall (fun b => exists bx by_ d, b = Bullet.new bx by_ d "enemy")
                 shots.
Proof.
  revert g. induction es as [| e rest IH]; intros g; cbn zeta;
    cbn [Game.enemiesLoop].
  - cbn [fst snd]. split; [constructor |].
    exists [], (Game.rng g). rewrite app_nil_r. cbn [length].
    split; [destruct g; reflexivity | split; [lia | constructor]].
  - destruct (enemyTurn_fields dt e g) as (Hs & bs & n1 & Hg & Hbs).
    cbn zeta in *.
    destruct (enemyTurn dt e g) as [e1 g1]. cbn [fst snd] in *. subst g1.
    destruct (IH (Game.set_bullets bs (Game.set_rng n1 g)))
      as (Hrest & shots & n2 & Hg2 & Hlen & Hsh).
    cbn zeta in *.
    destruct (enemiesLoop dt rest _) as [rest1 g2]. cbn [fst snd] in *.
    subst g2. split; [constructor; assumption |]. gsimpl.
    destruct Hbs as [-> | (bx & by_ & d & ->)].
    + exists shots, n2. split; [reflexivity |].
      split; [cbn [length]; lia | exact Hsh].
    + exists (Bullet.new bx by_ d "enemy" :: shots), n2.
      split; [rewrite <- app_assoc; reflexivity |].
      split; [cbn [length]; lia |].
      constructor; [eexists _, _, _; reflexivity | exact Hsh].
Qed.

Lemma movePhase_fields dt g :
  exists p es shots n',
    movePhase dt g
    = Game.set_bullets
        (map (Bullet.update WIDTH HEIGHT) (Game.bullets g ++ shots))
        (Game.set_enemies es (Game.set_rng n' (Game.set_player p g)))
    /\ steered WIDTH HEIGHT (Game.player g) p
    /\ Forall2 (steered WIDTH HEIGHT) (Game.enemies g) es
    /\ (length shots <= length (Game.enemies g))%nat
    /\ Forall (fun b => exists bx by_ d, b = Bullet.new bx by_ d "enemy")
              shots.
Proof.
  unfold Game.movePhase.
  pose proof (Tank_update_steered WIDTH HEIGHT random dt (Game.input g)
                (Game.player g) (Game.rng g)) as Hp.
  destruct (Tank.update _ _ _ _ _ _ _) as [p n]. cbn [fst] in Hp.
  destruct (enemiesLoop_fields dt (Game.enemies g)
              (Game.set_rng n (Game.set_player p g)))
    as (Hes & shots & n' & Hg & Hlen & Hsh).
  cbn zeta in *. gsimpl.
  destruct (enemiesLoop dt (Game.enemies g) _) as [es g1].
  cbn [fst snd] in *. subst g1. gsimpl.
  exists p, es, shots, n'. split; [reflexivity |].
  split; [exact Hp |]. split; [exact Hes |]. split; assumption.
Qed.

(** In the moves of one frame every enemy fires at most one bullet: the
    bullets handed to the collision pass are the bullets of the list
    followed by at most one new bullet for each enemy, each new one owned by
    the enemies, all of them moved once by [Bullet.update]. *)
Theorem enemies_fire_once_each dt g :
  exists shots,
    Game.bullets (movePhase dt g)
    = map (Bullet.update WIDTH HEIGHT) (Game.bullets g ++ shots)
    /\ (length shots <= length (Game.enemies g))%nat
    /\ Forall (fun b => Bullet.owner b = "enemy"%string
                        /\ Bullet.active b = true) shots.
Proof.
  destruct (movePhase_fields dt g)
    as (p & es & shots & n' & -> & _ & _ & Hlen & Hsh).
  exists shots. gsimpl. split; [reflexivity |]. split; [exact Hlen |].
  eapply Forall_impl; [| exact Hsh].
  intros b (bx & by_ & d & ->). split; reflexivity.
Qed.

(** ** Collisions: who is left, and where *)

Lemma filter_length_le' {A} (f : A -> bool) l :
  (length (filter f l) <= length l)%nat.
Proof. pose proof (filter_split_length f l). lia. Qed.

Lemma pilot_refl g : pilot WIDTH HEIGHT g g.
Proof. left. reflexivity. Qed.

Lemma pilot_trans g1 g2 g3 :
  pilot WIDTH HEIGHT g1 g2 -> pilot WIDTH HEIGHT g2 g3 ->
  pilot WIDTH HEIGHT g1 g3.
Proof.
  unfold pilot. intros [H1 | H1] [H2 | H2]; rewrite H2, H1; auto.
Qed.

Lemma loseLife_pilot st g : pilot WIDTH HEIGHT g (loseLife st g).
Proof.
  unfold pilot, Game.loseLife. gsimpl.
  destruct (Game.lives g - 1 <=? 0)%Z; [| destruct st]; gsimpl; auto.
Qed.

Lemma ramLoop_quiet es g c :
  existsb (Game.ramTest (Game.player g)) es = false ->
  ramLoop es g c = (es, g, c).
Proof.
  induction es as [| e rest IH]; cbn [Game.ramLoop existsb]; intros H;
    [reflexivity |].
  apply orb_false_iff in H. destruct H as [H1 H2].
  rewrite H1, (IH H2). reflexivity.
Qed.

Lemma ramLoop_left es g c :
  let es' := fst (fst (ramLoop es g c)) in
  length es' = length es /\ incl (filter Game.onField es') es.
Proof.
  revert g c. induction es as [| e rest IH]; intros g c; cbn zeta;
    cbn [Game.ramLoop].
  - cbn. split; [reflexivity | apply incl_refl].
  - destruct (Game.ramTest (Game.player g) e).
    + match goal with
      | |- context [Game.ramLoop random rest ?g3 true] =>
          specialize (IH g3 true); cbn zeta in IH;
          destruct (Game.ramLoop random rest g3 true) as [[rest' g'] c']
      end.
      cbn [fst snd] in *. cbn [length filter].
      rewrite marked_off_field. destruct IH as [Hl Hi].
      split; [congruence | apply incl_tl, Hi].
    + specialize (IH g c). cbn zeta in IH.
      destruct (ramLoop rest g c) as [[rest' g'] c'].
      cbn [fst snd] in *. cbn [length filter]. destruct IH as [Hl Hi].
      split; [congruence |].
      destruct (Game.onField e); [| apply incl_tl, Hi].
      intros a [Ha | Ha]; [left; exact Ha | right; apply Hi, Ha].
Qed.

Lemma ramPhase_left g :
  let g' := ramPhase g in
  incl (Game.enemies g') (Game.enemies g)
  /\ (length (Game.enemies g') <= length (Game.enemies g))%nat
  /\ pilot WIDTH HEIGHT g g'.
Proof.
  cbn zeta. unfold Game.ramPhase.
  destruct (ramLoop_spec (Game.enemies g) g false)
    as (_ & Hp & _ & _ & Hc & _ & _ & He).
  destruct (ramLoop_left (Game.enemies g) g false) as [Hl Hi].
  cbn zeta in *.
  destruct (ramLoop (Game.enemies g) g false) as [[es' g1] c].
  cbn [fst snd orb] in *. subst c.
  destruct (existsb _ _) eqn:Hhit.
  - destruct (loseLife_spec (Some Game.Rammed)
                (Game.set_enemies
                   (filter Game.onField
                      (Game.enemies (Game.set_enemies es' g1)))
                   (Game.set_enemies es' g1)))
      as (_ & _ & Le & _).
    pose proof (loseLife_pilot (Some Game.Rammed)
                  (Game.set_enemies
                     (filter Game.onField
                        (Game.enemies (Game.set_enemies es' g1)))
                     (Game.set_enemies es' g1))) as Lp.
    gsimpl. rewrite Le. split; [exact Hi |]. split.
    + pose proof (filter_length_le' Game.onField es'). lia.
    + unfold pilot in *. gsimpl. rewrite Hp in Lp. exact Lp.
  - rewrite (He eq_refl). gsimpl.
    split; [apply incl_refl |]. split; [lia |].
    left. exact Hp.
Qed.

Lemma shotLoop_quiet b es g :
  existsb (Game.shotTest b) es = false -> shotLoop b es g = (b, es, g).
Proof.
  induction es as [| e rest IH]; cbn [Game.shotLoop existsb]; intros H;
    [reflexivity |].
  apply orb_false_iff in H. destruct H as [H1 H2].
  rewrite H1, (IH H2). destruct (negb _); reflexivity.
Qed.

Lemma shotLoop_length b es g :
  length (snd (fst (shotLoop b es g))) = length es.
Proof.
  revert b g. induction es as [| e rest IH]; intros b g;
    cbn [Game.shotLoop]; [reflexivity |].
  destruct (negb (Bullet.active b)).
  - specialize (IH b g). destruct (shotLoop b rest g) as [[b1 r1] g1].
    cbn [fst snd length] in *. congruence.
  - destruct (Game.shotTest b e).
    + match goal with
      | |- context [Game.shotLoop random ?b1 rest ?g1] =>
          specialize (IH b1 g1);
          destruct (Game.shotLoop random b1 rest g1) as [[b2 r1] g2]
      end.
      cbn [fst snd length] in *. congruence.
    + specialize (IH b g). destruct (shotLoop b rest g) as [[b1 r1] g1].
      cbn [fst snd length] in *. congruence.
Qed.

Lemma bulletTurn_left b g :
  let g' := snd (bulletTurn b g) in
  (length (Game.enemies g') <= length (Game.enemies g))%nat
  /\ pilot WIDTH HEIGHT g g'.
Proof.
  cbn zeta. unfold Game.bulletTurn.
  destruct (negb (Bullet.active b)) eqn:Hact;
    [cbn [snd]; split; [lia | apply pilot_refl] |].
  destruct (String.eqb (Bullet.owner b) "player").
  - apply negb_false_iff in Hact.
    destruct (shotLoop_spec b (Game.enemies g) g Hact) as (_ & Hp & _).
    pose proof (shotLoop_length b (Game.enemies g) g) as Hl.
    cbn zeta in *.
    destruct (shotLoop b (Game.enemies g) g) as [[b1 es1] g1].
    cbn [fst snd] in *. gsimpl. split.
    + pose proof (filter_length_le' Game.onField es1). lia.
    + left. exact Hp.
  - destruct (String.eqb (Bullet.owner b) "enemy");
      [| cbn [snd]; split; [lia | apply pilot_refl]].
    destruct (Game.woundTest b (Game.player g));
      [| cbn [snd]; split; [lia | apply pilot_refl]].
    with_particles. cbn [snd].
    match goal with
    | |- context [Game.loseLife WIDTH HEIGHT None ?g1] =>
        pose proof (loseLife_pilot None g1) as Lp;
        destruct (loseLife_spec None g1) as (_ & _ & Le & _)
    end.
    gsimpl. rewrite Le. split; [lia |].
    unfold pilot in *. gsimpl. exact Lp.
Qed.

Lemma bulletsLoop_left bs g :
  let r := bulletsLoop bs g in
  (length (Game.enemies (snd r)) <= length (Game.enemies g))%nat
  /\ pilot WIDTH HEIGHT g (snd r) /\ length (fst r) = length bs.
Proof.
  revert g. induction bs as [| b rest IH]; intros g; cbn zeta;
    cbn [Game.bulletsLoop].
  - cbn [fst snd]. split; [lia | split; [apply pilot_refl | reflexivity]].
  - destruct (bulletTurn_left b g) as [Hl Hp]. cbn zeta in *.
    destruct (bulletTurn b g) as [b1 g1]. cbn [fst snd] in *.
    destruct (IH g1) as (Hl2 & Hp2 & Hn). cbn zeta in *.
    destruct (bulletsLoop rest g1) as [rest1 g2]. cbn [fst snd] in *.
    split; [lia |]. split; [eapply pilot_trans; eassumption |].
    cbn [length]. congruence.
Qed.

Lemma handleCollisions_left g :
  let g' := handleCollisions g in
  incl (Game.enemies g') (Game.enemies g)
  /\ (length (Game.enemies g') <= length (Game.enemies g))%nat
  /\ pilot WIDTH HEIGHT g g'
  /\ Game.scoreText g' = Game.score g' /\ Game.livesText g' = Game.lives g'.
Proof.
  cbn zeta. unfold Game.handleCollisions, Game.bulletPhase.
  destruct (ramPhase_left g) as (Ri & Rl & Rp). cbn zeta in *.
  destruct (bulletsLoop_spec (Game.bullets (ramPhase g)) (ramPhase g))
    as (_ & _ & _ & _ & _ & _ & _ & Bi & _).
  destruct (bulletsLoop_left (Game.bullets (ramPhase g)) (ramPhase g))
    as (Bl & Bp & _).
  cbn zeta in *.
  destruct (bulletsLoop (Game.bullets (ramPhase g)) (ramPhase g))
    as [bs1 g1].
  cbn [fst snd] in *. gsimpl.
  split; [eapply incl_tran; eassumption |]. split; [lia |].
  split; [| split; reflexivity].
  pose proof (pilot_trans _ _ _ Rp Bp) as Hp. unfold pilot in *. gsimpl.
  exact Hp.
Qed.

Lemma bulletTurn_quiet b g :
  shotLands b g = false -> woundLands b g = false ->
  Forall (fun e => Game.onField e = true) (Game.enemies g) ->
  bulletTurn b g = (b, g).
Proof.
  unfold shotLands, woundLands, Game.bulletTurn. intros Hs Hw HF.
  destruct (Bullet.active b); cbn [negb andb] in *; [| reflexivity].
  destruct (String.eqb (Bullet.owner b) "player"); cbn [andb] in *.
  - rewrite (shotLoop_quiet _ _ _ Hs), (filter_all _ _ HF).
    rewrite set_enemies_same. reflexivity.
  - destruct (String.eqb (Bullet.owner b) "enemy"); cbn [andb] in *;
      [| reflexivity].
    rewrite Hw. reflexivity.
Qed.

Lemma bulletsLoop_quiet bs g :
  Forall (fun b => shotLands b g = false /\ woundLands b g = false) bs ->
  Forall (fun e => Game.onField e = true) (Game.enemies g) ->
  bulletsLoop bs g = (bs, g).
Proof.
  intros Hbs HF. induction Hbs as [| b rest [Hs Hw] _ IH];
    cbn [Game.bulletsLoop]; [reflexivity |].
  rewrite (bulletTurn_quiet b g Hs Hw HF), IH. reflexivity.
Qed.

(** A collision pass in which no enemy overlaps the player and no active
    bullet is within reach of a target, over a roster that is on the field,
    only refreshes the two numbers of the page: no tank, bullet, particle,
    score, life or random draw changes. *)
Theorem handleCollisions_quiet g :
  existsb (Game.ramTest (Game.player g)) (Game.enemies g) = false ->
  Forall (fun e => Game.onField e = true) (Game.enemies g) ->
  Forall (fun b => shotLands b g = false /\ woundLands b g = false)
         (Game.bullets g) ->
  handleCollisions g = Game.syncHUD g.
Proof.
  intros Hram HF Hbs.
  unfold Game.handleCollisions, Game.bulletPhase, Game.ramPhase.
  rewrite (ramLoop_quiet _ _ _ Hram), set_enemies_same.
  rewrite (bulletsLoop_quiet _ _ Hbs HF), set_bullets_same. reflexivity.
Qed.

(** When an enemy overlaps the player the tank phase takes one life.  With
    a life left the player is put back on the spawn point, keeping its
    heading and cooldown, the status shows the hit and the game goes on;
    with none left the player stays where it is, the game stops and the
    status shows the defeat. *)
Theorem ram_outcome g :
  existsb (Game.ramTest (Game.player g)) (Game.enemies g) = true ->
  let g' := ramPhase g in
  Game.lives g' = (Game.lives g - 1)%Z
  /\ ((1 < Game.lives g)%Z ->
      Game.player g'
      = Tank.set_y (HEIGHT - 80) (Tank.set_x (WIDTH / 2) (Game.player g))
      /\ Game.statusText g' = Game.Rammed
      /\ Game.running g' = Game.running g)
  /\ ((Game.lives g <= 1)%Z ->
      Game.player g' = Game.player g
      /\ Game.statusText g' = Game.Defeated
      /\ Game.running g' = false).
Proof.
  intros Hram. cbn zeta. unfold Game.ramPhase.
  destruct (ramLoop_spec (Game.enemies g) g false)
    as (Hl & Hp & _ & Hr & Hc & _).
  cbn zeta in *. rewrite Hram in Hc.
  destruct (ramLoop (Game.enemies g) g false) as [[es' g1] c].
  cbn [fst snd orb] in *. subst c.
  unfold Game.loseLife. gsimpl. rewrite Hl.
  destruct (Z.leb_spec (Game.lives g - 1) 0); gsimpl;
    (split; [reflexivity |]); split; intros Hlives;
    try lia; repeat split; try assumption.
  rewrite Hp. reflexivity.
Qed.

(** A collision pass makes no enemy and alters none: the roster it leaves
    is made of enemies of the roster it got and is no longer.  It leaves
    the player as it was or puts it on the spawn point, keeping its heading
    and cooldown.  It keeps every bullet at its index, unchanged or only
    made inactive. *)
Theorem collisions_only_remove g :
  let g' := handleCollisions g in
  incl (Game.enemies g') (Game.enemies g)
  /\ (length (Game.enemies g') <= length (Game.enemies g))%nat
  /\ (Game.player g' = Game.player g
      \/ Game.player g'
         = Tank.set_y (HEIGHT - 80)
             (Tank.set_x (WIDTH / 2) (Game.player g)))
  /\ Forall2 (fun b b' => b' = b
                \/ (Bullet.active b = true /\ b' = Bullet.deactivate b))
             (Game.bullets g) (Game.bullets g').
Proof.
  destruct (handleCollisions_left g) as (Ci & Cn & Cp & _).
  destruct (handleCollisions_spec g) as (_ & _ & _ & Cf & _).
  cbn zeta in *. split; [exact Ci |]. split; [exact Cn |].
  split; [exact Cp | exact Cf].
Qed.

(** A bullet harms the other side only: examining a bullet owned by the
    player changes neither the lives nor the player, and examining a bullet
    owned by the enemies changes neither the score nor the roster. *)
Theorem bullets_hit_the_other_side b g :
  let g' := snd (bulletTurn b g) in
  (Bullet.owner b = "player"%string ->
   Game.lives g' = Game.lives g /\ Game.player g' = Game.player g
   /\ Game.running g' = Game.running g)
  /\ (Bullet.owner b = "enemy"%string ->
      Game.score g' = Game.score g /\ Game.enemies g' = Game.enemies g).
Proof.
  cbn zeta. split; intros Ho.
  - unfold Game.bulletTurn. rewrite Ho. cbn [String.eqb].
    destruct (Bullet.active b) eqn:Hact; cbn [negb snd];
      [| repeat split].
    change (String.eqb "player" "player") with true. cbv iota.
    destruct (shotLoop_spec b (Game.enemies g) g Hact)
      as (Hl & Hp & _ & Hr & _).
    cbn zeta in *.
    destruct (shotLoop b (Game.enemies g) g) as [[b1 es1] g1].
    cbn [fst snd] in *. gsimpl. repeat split; assumption.
  - unfold Game.bulletTurn. rewrite Ho.
    change (String.eqb "enemy" "player") with false.
    change (String.eqb "enemy" "enemy") with true. cbv iota.
    destruct (negb (Bullet.active b)); cbn [snd]; [repeat split |].
    destruct (Game.woundTest b (Game.player g)); cbn [snd];
      [| repeat split].
    with_particles.
    match goal with
    | |- context [Game.loseLife WIDTH HEIGHT None ?g1] =>
        destruct (loseLife_spec None g1) as (_ & Ls & Le & _)
    end.
    gsimpl. split; assumption.
Qed.

(** ** What holds in every state of a run *)

Lemma spawnEnemies_Forall (P : Tank.t -> Prop) g :
  (forall m,
     P (Tank.set_angle (random (m + 2) * PI * 2)
          (Tank.new (60 + random m * (WIDTH - 120))
                    (60 + random (m + 1) * (HEIGHT / 2 - 60))
                    "#ffb347" false))) ->
  exists es n,
    spawnEnemies g = Game.set_rng n (Game.set_enemies es g)
    /\ length es = 5%nat /\ Forall P es.
Proof.
  intros Hnew. unfold Game.spawnEnemies.
  pose proof (spawnLoop_length ENEMY_COUNT [] (Game.rng g)) as Hl.
  destruct (spawnLoop_spec P ENEMY_COUNT [] (Game.rng g)
              (Forall_nil P) Hnew) as [HF _].
  destruct (Game.spawnLoop _ _ _ _ _ _) as [es n]. cbn [fst snd] in *.
  exists es, n. split; [reflexivity | split; assumption].
Qed.

Lemma spawn_enemyKind m :
  enemyKind (Tank.set_angle (random (m + 2) * PI * 2)
               (Tank.new (60 + random m * (WIDTH - 120))
                         (60 + random (m + 1) * (HEIGHT / 2 - 60))
                         "#ffb347" false)).
Proof. unfold enemyKind. cbn. repeat split. lra. Qed.

Lemma steered_playerKind k k' :
  steered WIDTH HEIGHT k k' -> playerKind k -> playerKind k'.
Proof.
  unfold steered, playerKind.
  intros (H1 & H2 & H3 & H4 & _) (K1 & K2 & K3 & _).
  repeat split; congruence || assumption.
Qed.

Lemma steered_enemyKind k k' :
  steered WIDTH HEIGHT k k' -> enemyKind k -> enemyKind k'.
Proof.
  unfold steered, enemyKind.
  intros (H1 & H2 & H3 & H4 & _) (K1 & K2 & K3 & _).
  repeat split; congruence || assumption.
Qed.

Lemma steered_inField k k' :
  steered WIDTH HEIGHT k k' ->
  Tank.size k <= WIDTH -> Tank.size k <= HEIGHT ->
  inField WIDTH HEIGHT k'.
Proof.
  unfold steered, inField.
  intros (_ & H2 & _ & _ & u & v & Hx & Hy) HW HH.
  rewrite H2, Hx, Hy. split; apply clamp_range; lra.
Qed.

Lemma round_update b : round b -> round (Bullet.update WIDTH HEIGHT b).
Proof. unfold round, Bullet.update. cbn. tauto. Qed.

Lemma core_movePhase dt g : core g -> core (movePhase dt g).
Proof.
  intros (Hs & Hl & Hn & Hb & Hp & He).
  destruct (movePhase_fields dt g)
    as (p & es & shots & n' & -> & Sp & Ses & _ & Hsh).
  unfold core. gsimpl.
  split; [exact Hs |]. split; [exact Hl |].
  split; [rewrite <- (Forall2_length Ses); exact Hn |].
  split; [| split; [eapply steered_playerKind; eassumption |]].
  - apply Forall_map. apply Forall_app. split.
    + eapply Forall_impl; [| exact Hb]. intros b. apply round_update.
    + eapply Forall_impl; [| exact Hsh].
      intros b (bx & by_ & d & ->). apply round_update.
      unfold round. cbn. auto.
  - clear - Ses He. induction Ses as [| e e' l l' Hee _ IH];
      [constructor |].
    inversion He; subst. constructor;
      [eapply steered_enemyKind; eassumption | apply IH; assumption].
Qed.

Lemma core_handleCollisions g : core g -> core (handleCollisions g).
Proof.
  intros ([k Hs] & Hl & Hn & Hb & Hp & He).
  destruct (handleCollisions_spec g) as (Cs & Cl & _ & Cf & _).
  destruct (handleCollisions_left g) as (Ci & Cn & Cp & _).
  cbn zeta in *. unfold core.
  split; [| split; [| split; [lia | split; [| split]]]].
  - eexists (k + (rams (Game.player g) (Game.enemies g)
                  + spent "player" (Game.bullets g)
                      (Game.bullets (handleCollisions g))))%nat.
    rewrite Cs, Hs. lia.
  - rewrite Cl. destruct (existsb _ _); lia.
  - clear - Cf Hb. induction Cf as [| b b' l l' Hbb _ IH]; [constructor |].
    inversion Hb; subst. constructor; [| apply IH; assumption].
    destruct Hbb as [-> | [_ ->]]; [assumption |].
    unfold round in *. cbn. assumption.
  - unfold playerKind in *. destruct Cp as [-> | ->]; [exact Hp |].
    cbn. exact Hp.
  - apply Forall_forall. intros e Hin.
    rewrite Forall_forall in He. apply He, Ci, Hin.
Qed.

Lemma sound_update dt g : core g -> sound (update dt g).
Proof.
  intros Hc. apply (core_movePhase dt) in Hc. apply core_handleCollisions in Hc.
  destruct (handleCollisions_left (movePhase dt g)) as (_ & _ & _ & T1 & T2).
  cbn zeta in *. unfold Game.update.
  set (c := handleCollisions (movePhase dt g)) in *.
  destruct Hc as (Hs & Hl & Hn & Hb & Hp & He).
  unfold Game.refill, Game.pruneBullets. gsimpl.
  destruct (Game.enemies c) as [| e es] eqn:Ees.
  - destruct (spawnEnemies_Forall enemyKind
                (Game.set_bullets (filter Bullet.active (Game.bullets c)) c)
                spawn_enemyKind) as (es & n & -> & Hlen & HF).
    unfold sound, core. gsimpl. rewrite Hlen.
    repeat split; try assumption; try lia.
    + apply Forall_forall. intros b Hb'. apply filter_In in Hb'.
      rewrite Forall_forall in Hb. apply Hb, Hb'.
    + apply Hp.
    + apply Hp.
    + apply Hp.
    + apply Hp.
    + apply filter_kept.
  - unfold sound, core. gsimpl. rewrite Ees in *.
    repeat split; try assumption; try (cbn [length]; lia).
    + apply Forall_forall. intros b Hb'. apply filter_In in Hb'.
      rewrite Forall_forall in Hb. apply Hb, Hb'.
    + apply Hp.
    + apply Hp.
    + apply Hp.
    + apply Hp.
    + apply filter_kept.
Qed.

Lemma newPlayer_kind : playerKind (Game.newPlayer WIDTH HEIGHT).
Proof. unfold playerKind. cbn. repeat split. lra. Qed.

Lemma sound_reset g : sound (reset g).
Proof.
  unfold Game.reset.
  match goal with
  | |- context [Game.spawnEnemies _ _ _ ?g0] =>
      destruct (spawnEnemies_Forall enemyKind g0 spawn_enemyKind)
        as (es & n & -> & Hlen & HF)
  end.
  unfold sound, core. gsimpl. rewrite Hlen.
  split; [| split; [lia | split; [constructor | split; reflexivity]]].
  split; [exists 0%nat; reflexivity |].
  split; [unfold PLAYER_MAX_LIVES; lia |].
  split; [lia |]. split; [constructor |].
  split; [apply newPlayer_kind | exact HF].
Qed.

Lemma sound_new : sound (Game.new WIDTH HEIGHT random).
Proof.
  unfold Game.new.
  match goal with
  | |- context [Game.spawnEnemies _ _ _ ?g0] =>
      destruct (spawnEnemies_Forall enemyKind g0 spawn_enemyKind)
        as (es & n & -> & Hlen & HF)
  end.
  unfold sound, core. gsimpl. rewrite Hlen.
  split; [| split; [lia | split; [constructor | split; reflexivity]]].
  split; [exists 0%nat; reflexivity |].
  split; [unfold PLAYER_MAX_LIVES; lia |].
  split; [lia |]. split; [constructor |].
  split; [apply newPlayer_kind | exact HF].
Qed.

Lemma sound_fire g : sound g -> sound (Game.fire g).
Proof.
  intros ((Hs & Hl & Hn & Hb & Hp & He) & H1 & Ha & T1 & T2).
  unfold Game.fire, Tank.tryShoot.
  destruct (Rltb 0 _); unfold sound, core; gsimpl.
  - repeat split; try assumption; apply Hp.
  - destruct Hp as (P1 & P2 & P3 & P4).
    repeat split; try assumption.
    + apply Forall_app. split; [exact Hb |].
      constructor; [| constructor]. unfold round. cbn. auto.
    + cbn. lra.
    + apply Forall_app. split; [exact Ha |].
      constructor; [reflexivity | constructor].
Qed.

Lemma sound_core g : sound g -> core g.
Proof. intros [H _]. exact H. Qed.

Lemma sound_step ev g : sound g -> sound (step ev g).
Proof.
  intros Hg.
  assert (Hin : forall keys, sound (Game.set_input keys g)).
  { intros keys. destruct Hg as ((Hs & Hl & Hn & Hb & Hp & He) & H1 & Ha & T).
    unfold sound, core. gsimpl. repeat split; try assumption; apply Hp || apply T. }
  destruct ev as [code | code | | | | | | t]; cbn [Game.step].
  - unfold Game.keydown.
    set (g1 := Game.set_input (Input.keydown (Game.input g) code) g).
    assert (H1 : sound g1) by apply Hin.
    assert (H2 : sound (if String.eqb code "Space" then Game.fire g1 else g1))
      by (destruct (String.eqb code "Space");
          [apply sound_fire, H1 | exact H1]).
    destruct (String.eqb code "KeyR"); [apply sound_reset | exact H2].
  - apply Hin.
  - destruct Hg as ((Hs & Hl & Hn & Hb & Hp & He) & H1 & Ha & T).
    unfold sound, core. gsimpl.
    repeat split; try assumption; apply Hp || apply T.
  - destruct Hg as ((Hs & Hl & Hn & Hb & Hp & He) & H1 & Ha & T).
    unfold sound, core. gsimpl.
    repeat split; try assumption; apply Hp || apply T.
  - destruct Hg as ((Hs & Hl & Hn & Hb & Hp & He) & H1 & Ha & T).
    unfold sound, core. gsimpl.
    repeat split; try assumption; apply Hp || apply T.
  - apply sound_reset.
  - destruct Hg as ((Hs & Hl & Hn & Hb & Hp & He) & H1 & Ha & T).
    unfold sound, core. gsimpl.
    repeat split; try assumption; apply Hp || apply T.
  - unfold Game.loop. gsimpl.
    assert (H0 : sound (Game.set_lastTime t g)).
    { destruct Hg as ((Hs & Hl & Hn & Hb & Hp & He) & H1 & Ha & T).
      unfold sound, core. gsimpl.
      repeat split; try assumption; apply Hp || apply T. }
    assert (H1 : sound (if Game.running g
                        then update (t - Game.lastTime g)
                               (Game.set_lastTime t g)
                        else Game.set_lastTime t g)).
    { destruct (Game.running g);
        [apply sound_update, sound_core, H0 | exact H0]. }
    destruct H1 as ((Hs & Hl & Hn & Hb & Hp & He) & H1 & Ha & T).
    unfold sound, core. gsimpl.
    repeat split; try assumption; apply Hp || apply T.
Qed.

Lemma run_sound evs g :
  sound g -> sound (Game.run WIDTH HEIGHT random evs g).
Proof.
  revert g. induction evs as [| ev evs IH]; intros g Hg; cbn; [exact Hg |].
  apply IH, sound_step, Hg.
Qed.

(** In every state reached from the constructor by any events, the score
    is a multiple of 100 that is not negative, the lives are at most 3, and
    the two numbers shown on the page are the score and the lives. *)
Theorem reachable_score_and_lives evs :
  let g := Game.run WIDTH HEIGHT random evs (Game.new WIDTH HEIGHT random) in
  (exists k : nat, Game.score g = (100 * Z.of_nat k)%Z)
  /\ (Game.lives g <= 3)%Z
  /\ Game.scoreText g = Game.score g /\ Game.livesText g = Game.lives g.
Proof.
  destruct (run_sound evs _ sound_new)
    as ((Hs & Hl & _) & _ & _ & T1 & T2).
  cbn zeta. repeat split; assumption.
Qed.

(** In every state reached from the constructor by any events, the roster
    has between one and five enemies, each of them an enemy tank of size 36
    and speed 1.8, and the player is the player tank of size 36 and speed
    2.6; no cooldown is negative. *)
Theorem reachable_roster evs :
  let g := Game.run WIDTH HEIGHT random evs (Game.new WIDTH HEIGHT random) in
  (1 <= length (Game.enemies g) <= 5)%nat
  /\ Forall enemyKind (Game.enemies g) /\ playerKind (Game.player g).
Proof.
  destruct (run_sound evs _ sound_new)
    as ((_ & _ & Hn & _ & Hp & He) & H1 & _).
  cbn zeta. repeat split; try assumption; apply Hp.
Qed.

(** In every state reached from the constructor by any events, every
    bullet of the list is active, is owned by the player or by the enemies,
    and has the speed and size the constructor gives: an inactive bullet
    never outlives the frame that used it up. *)
Theorem reachable_bullets evs :
  let g := Game.run WIDTH HEIGHT random evs (Game.new WIDTH HEIGHT random) in
  Forall (fun b => Bullet.active b = true /\ round b) (Game.bullets g).
Proof.
  destruct (run_sound evs _ sound_new)
    as ((_ & _ & _ & Hb & _) & _ & Ha & _).
  cbn zeta. apply Forall_forall. intros b Hin.
  rewrite Forall_forall in Hb, Ha. split; [apply Ha | apply Hb]; exact Hin.
Qed.

(** ** Every tank stays on the field *)

Section Placed.
Hypothesis random_fair : fair random.
Hypothesis wide : 120 <= WIDTH.
Hypothesis high : 120 <= HEIGHT.

Lemma spawn_inField m :
  inField WIDTH HEIGHT
    (Tank.set_angle (random (m + 2) * PI * 2)
       (Tank.new (60 + random m * (WIDTH - 120))
                 (60 + random (m + 1) * (HEIGHT / 2 - 60))
                 "#ffb347" false)).
Proof.
  unfold inField. cbn.
  assert (Hw : 0 <= WIDTH - 120) by lra.
  assert (Hh : 0 <= HEIGHT / 2 - 60) by lra.
  pose proof (spawn_in_range (random m) 60 (WIDTH - 120) (random_fair m) Hw).
  pose proof (spawn_in_range (random (m + 1)) 60 (HEIGHT / 2 - 60)
                (random_fair (m + 1)%nat) Hh).
  lra.
Qed.

Lemma newPlayer_inField : inField WIDTH HEIGHT (Game.newPlayer WIDTH HEIGHT).
Proof. unfold inField. cbn. lra. Qed.

Lemma placed_reset g : placed WIDTH HEIGHT (reset g).
Proof.
  unfold Game.reset.
  match goal with
  | |- context [Game.spawnEnemies _ _ _ ?g0] =>
      destruct (spawnEnemies_Forall (inField WIDTH HEIGHT) g0 spawn_inField)
        as (es & n & -> & Hlen & HF)
  end.
  unfold placed. gsimpl. split; [apply newPlayer_inField | exact HF].
Qed.

Lemma placed_new : placed WIDTH HEIGHT (Game.new WIDTH HEIGHT random).
Proof.
  unfold Game.new.
  match goal with
  | |- context [Game.spawnEnemies _ _ _ ?g0] =>
      destruct (spawnEnemies_Forall (inField WIDTH HEIGHT) g0 spawn_inField)
        as (es & n & -> & Hlen & HF)
  end.
  unfold placed. gsimpl. split; [apply newPlayer_inField | exact HF].
Qed.

Lemma placed_update dt g : core g -> placed WIDTH HEIGHT (update dt g).
Proof.
  intros Hc.
  assert (Hm : placed WIDTH HEIGHT (movePhase dt g)
               /\ core (movePhase dt g)).
  { split; [| apply core_movePhase, Hc].
    destruct Hc as (_ & _ & _ & _ & Hp & He).
    destruct (movePhase_fields dt g)
      as (p & es & shots & n' & -> & Sp & Ses & _).
    unfold placed. gsimpl. split.
    - destruct Hp as (_ & P2 & _).
      apply (steered_inField _ _ Sp); rewrite P2; lra.
    - clear - Ses He wide high.
      induction Ses as [| e e' l l' Hee _ IH]; [constructor |].
      inversion He as [| e0 l0 (_ & E2 & _) Hrest]; subst.
      constructor; [| apply IH, Hrest].
      apply (steered_inField _ _ Hee); rewrite E2; lra. }
  destruct Hm as [[Mp Me] Mc].
  destruct (handleCollisions_left (movePhase dt g)) as (Ci & _ & Cp & _).
  cbn zeta in *. unfold Game.update.
  set (m := movePhase dt g) in *. set (c := handleCollisions m) in *.
  assert (Hcp : inField WIDTH HEIGHT (Game.player c)).
  { destruct Mc as (_ & _ & _ & _ & (_ & P2 & _) & _).
    destruct Cp as [-> | ->]; [exact Mp |].
    unfold inField. cbn. rewrite P2. lra. }
  assert (Hce : Forall (inField WIDTH HEIGHT) (Game.enemies c)).
  { apply Forall_forall. intros e Hin. rewrite Forall_forall in Me.
    apply Me, Ci, Hin. }
  unfold Game.refill, Game.pruneBullets. gsimpl.
  destruct (Game.enemies c) as [| e es] eqn:Ees.
  - destruct (spawnEnemies_Forall (inField WIDTH HEIGHT)
                (Game.set_bullets (filter Bullet.active (Game.bullets c)) c)
                spawn_inField) as (es & n & -> & _ & HF).
    unfold placed. gsimpl. split; assumption.
  - unfold placed. gsimpl. rewrite Ees. split; assumption.
Qed.

Lemma placed_step ev g :
  sound g -> placed WIDTH HEIGHT g -> placed WIDTH HEIGHT (step ev g).
Proof.
  intros Hs Hp.
  destruct ev as [code | code | | | | | | t]; cbn [Game.step];
    try exact Hp; try apply placed_reset.
  - unfold Game.keydown.
    set (g1 := Game.set_input (Input.keydown (Game.input g) code) g).
    assert (H1 : placed WIDTH HEIGHT g1) by exact Hp.
    assert (H2 : placed WIDTH HEIGHT
                   (if String.eqb code "Space" then Game.fire g1 else g1)).
    { destruct (String.eqb code "Space"); [| exact H1].
      unfold Game.fire, Tank.tryShoot. destruct (Rltb 0 _); exact H1. }
    destruct (String.eqb code "KeyR"); [apply placed_reset | exact H2].
  - unfold Game.loop. gsimpl. destruct (Game.running g).
    + pose proof (placed_update (t - Game.lastTime g)
                    (Game.set_lastTime t g)) as H.
      unfold placed in *. gsimpl. apply H.
      destruct Hs as [Hc _]. exact Hc.
    + exact Hp.
Qed.

Lemma run_placed evs g :
  sound g -> placed WIDTH HEIGHT g ->
  placed WIDTH HEIGHT (Game.run WIDTH HEIGHT random evs g).
Proof.
  revert g. induction evs as [| ev evs IH]; intros g Hs Hp; cbn;
    [exact Hp |].
  apply IH; [apply sound_step, Hs | apply placed_step; assumption].
Qed.

End Placed.

(** On a canvas of at least 120 by 120 and with draws in [0, 1), in every
    state reached from the constructor by any events the whole sprite of
    the player and of every enemy is on the canvas; in particular every
    enemy has a positive x, which is what the removal filter of the
    collision pass relies on. *)
Theorem reachable_tanks_on_field evs :
  fair random -> 120 <= WIDTH -> 120 <= HEIGHT ->
  let g := Game.run WIDTH HEIGHT random evs (Game.new WIDTH HEIGHT random) in
  placed WIDTH HEIGHT g
  /\ Forall (fun e => Game.onField e = true) (Game.enemies g).
Proof.
  intros Hf HW HH g.
  pose proof (run_placed Hf HW HH evs _ sound_new (placed_new Hf HW HH))
    as Hp.
  destruct (run_sound evs _ sound_new) as ((_ & _ & _ & _ & _ & He) & _).
  fold g in Hp, He. split; [exact Hp |].
  destruct Hp as [_ Hp]. apply Forall_forall. intros e Hin.
  rewrite Forall_forall in Hp, He.
  destruct (Hp e Hin) as [[Hx _] _]. destruct (He e Hin) as (_ & E2 & _).
  unfold Game.onField. apply Rltb_true. rewrite E2 in Hx. lra.
Qed.

(** ** Lives lost in one call of [update] (C1) *)










(** ** One hit per bullet and per enemy (C9) *)

Lemma shotLoop_roster b es g :
  Bullet.active b = true ->
  Forall (fun e => Game.onField e = true) es ->
  filter Game.onField (snd (fst (shotLoop b es g)))
  = dropFirst (Game.shotTest b) es.
Proof.
  intros Hb. revert g. induction es as [| e rest IH]; intros g HF;
    cbn [Game.shotLoop dropFirst]; [reflexivity |].
  inversion HF as [| e0 l0 He Hrest]; subst.
  rewrite Hb. cbn [negb].
  destruct (Game.shotTest b e).
  - with_particles. rewrite shotLoop_idle by reflexivity.
    cbn [fst snd filter]. rewrite marked_off_field.
    apply filter_all, Hrest.
  - specialize (IH g Hrest).
    destruct (shotLoop b rest g) as [[b1 rest1] g1].
    cbn [fst snd filter] in *. rewrite He, IH. reflexivity.
Qed.

Lemma bulletTurn_roster b g :
  Forall (fun e => Game.onField e = true) (Game.enemies g) ->
  Game.enemies (snd (bulletTurn b g))
  = if Bullet.active b && String.eqb (Bullet.owner b) "player"
    then dropFirst (Game.shotTest b) (Game.enemies g)
    else Game.enemies g.
Proof.
  intros HF. unfold Game.bulletTurn.
  destruct (Bullet.active b) eqn:Hact; cbn [negb andb]; [| reflexivity].
  destruct (String.eqb (Bullet.owner b) "player").
  - pose proof (shotLoop_roster b (Game.enemies g) g Hact HF) as Hr.
    destruct (shotLoop b (Game.enemies g) g) as [[b1 es1] g1].
    cbn [fst snd] in *. gsimpl. exact Hr.
  - destruct (String.eqb (Bullet.owner b) "enemy"); [| reflexivity].
    destruct (Game.woundTest b (Game.player g)); [| reflexivity].
    with_particles. cbn [snd].
    match goal with
    | |- context [Game.loseLife WIDTH HEIGHT None ?g1] =>
        destruct (loseLife_spec None g1) as (_ & _ & Le & _)
    end.
    gsimpl. exact Le.
Qed.

Lemma bulletsLoop_roster bs g :
  Forall (fun e => Game.onField e = true) (Game.enemies g) ->
  Game.enemies (snd (bulletsLoop bs g)) = volley bs (Game.enemies g).
Proof.
  revert g. induction bs as [| b rest IH]; intros g HF;
    cbn [Game.bulletsLoop]; [reflexivity |].
  unfold volley. cbn [fold_left]. fold (volley rest).
  rewrite <- (bulletTurn_roster b g HF).
  destruct (bulletTurn_spec b g) as (_ & _ & _ & _ & _ & _ & Tn).
  cbn zeta in Tn. destruct (Tn HF) as [_ HF1].
  destruct (bulletTurn b g) as [b1 g1]. cbn [fst snd] in *.
  specialize (IH g1 HF1).
  destruct (bulletsLoop rest g1) as [rest1 g2]. cbn [fst snd] in *.
  exact IH.
Qed.

(** C9. A player bullet examined against a roster that is on the field
    removes one enemy or none: the roster it leaves is the roster it got
    without the first enemy in its reach, so the enemy hit is the enemy
    removed and it is tested against no later bullet.  The bullet adds 100
    to the score exactly when it removes an enemy, and is then inactive; an
    inactive bullet is examined against nothing.  Over the whole bullet
    phase the roster left is what the bullets leave one after another, and
    the score grows by 100 for each enemy removed, hence by at most 100 for
    each enemy of the roster. *)
Theorem player_bullet_hits_once :
  (forall b g,
     Forall (fun e => Game.onField e = true) (Game.enemies g) ->
     let r := bulletTurn b g in
     let k := if shotLands b g then 1%nat else 0%nat in
     (length (Game.enemies (snd r)) + k = length (Game.enemies g))%nat
     /\ Game.score (snd r) = (Game.score g + 100 * Z.of_nat k)%Z
     /\ (k = 1%nat -> Bullet.active (fst r) = false)
     /\ Forall (fun e => Game.onField e = true) (Game.enemies (snd r))
     /\ incl (Game.enemies (snd r)) (Game.enemies g))
  /\ (forall b g, Bullet.active b = false -> bulletTurn b g = (b, g))
  /\ (forall g,
       Forall (fun e => Game.onField e = true) (Game.enemies g) ->
       let g' := bulletPhase g in
       Game.score g'
       = (Game.score g
          + 100 * (Z.of_nat (length (Game.enemies g))
                   - Z.of_nat (length (Game.enemies g'))))%Z
       /\ (Game.score g'
           <= Game.score g + 100 * Z.of_nat (length (Game.enemies g)))%Z)
  /\ (forall b g,
       Forall (fun e => Game.onField e = true) (Game.enemies g) ->
       Game.enemies (snd (bulletTurn b g))
       = (if Bullet.active b && String.eqb (Bullet.owner b) "player"
          then dropFirst (Game.shotTest b) (Game.enemies g)
          else Game.enemies g)
       /\ fst (bulletTurn b g)
          = (if shotLands b g || woundLands b g
             then Bullet.deactivate b else b))
  /\ (forall g,
       Forall (fun e => Game.onField e = true) (Game.enemies g) ->
       Game.enemies (bulletPhase g)
       = volley (Game.bullets g) (Game.enemies g)).
Proof.
  split; [| split; [| split; [| split]]].
  - intros b g HF r k.
    destruct (bulletTurn_spec b g) as (Tb & Ts & _ & _ & _ & Ti & Tn).
    cbn zeta in *. fold r in Tb, Ts, Ti, Tn.
    destruct (Tn HF) as [Tn1 Tn2]. unfold k.
    repeat split; try assumption.
    + rewrite Ts. destruct (shotLands b g); reflexivity.
    + rewrite Tb. destruct (shotLands b g); [reflexivity | discriminate].
  - intros b g Hb. unfold Game.bulletTurn. rewrite Hb. reflexivity.
  - intros g HF g'.
    destruct (bulletPhase_spec g) as (Bs & Bn). cbn zeta in Bs, Bn.
    fold g' in Bs, Bn. specialize (Bn HF). rewrite Bs. split; lia.
  - intros b g HF. split; [apply bulletTurn_roster, HF |].
    destruct (bulletTurn_spec b g) as (Tb & _). exact Tb.
  - intros g HF. unfold Game.bulletPhase.
    pose proof (bulletsLoop_roster (Game.bullets g) g HF) as Hr.
    destruct (bulletsLoop (Game.bullets g) g) as [bs1 g1].
    cbn [snd] in Hr. gsimpl. exact Hr.
Qed.

(** ** The active flag of a bullet (C8), under every operation *)

Lemma Forall2_map_left {A B C} (R : B -> C -> Prop) (f : A -> B) l l' :
  Forall2 R (map f l) l' -> Forall2 (fun a c => R (f a) c) l l'.
Proof.
  revert l'. induction l as [| a l IH]; intros l' H; cbn in H;
    inversion H; subst; constructor; auto.
Qed.

Lemma tryShoot_bullets bs who k :
  snd (Tank.tryShoot bs who k) = bs
  \/ snd (Tank.tryShoot bs who k)
     = bs ++ [Bullet.new (Tank.x k + cos (Tank.angle k) * Tank.size k * 0.7)
                         (Tank.y k + sin (Tank.angle k) * Tank.size k * 0.7)
                         (Tank.angle k) who].
Proof.
  unfold Tank.tryShoot. destruct (Rltb 0 _); [left | right]; reflexivity.
Qed.

Lemma step_bullets ev g :
  Game.bullets (step ev g) = bulletsAfter WIDTH HEIGHT random ev g.
Proof.
  destruct ev as [code | code | | | | | | t];
    cbn [Game.step bulletsAfter]; try reflexivity.
  - unfold Game.keydown.
    destruct (String.eqb code "KeyR").
    + match goal with
      | |- context [Game.reset _ _ _ ?x] =>
          destruct (reset_spec x) as (_ & _ & _ & Hx); exact Hx
      end.
    + destruct (String.eqb code "Space"); [| reflexivity].
      unfold Game.fire. gsimpl.
      destruct (Tank.tryShoot (Game.bullets g) "player" (Game.player g));
        reflexivity.
  - unfold Game.loop. gsimpl. destruct (Game.running g); gsimpl;
      [| reflexivity].
    destruct (update_frame (t - Game.lastTime g) (Game.set_lastTime t g))
      as (_ & _ & _ & Hb).
    exact Hb.
Qed.

(** C8.  [Bullet.update] leaves a bullet active exactly when it was active
    and its new position is within the margin of 10 around the canvas.  The
    collision pass leaves a bullet active exactly when it was active and
    registered no hit, a hit being a score of 100 for a player bullet and a
    life lost for an enemy bullet.  No operation makes an inactive bullet
    active.  In a frame each bullet of the list, followed by at most one
    new bullet for each enemy, is moved by [Bullet.update] and then kept or
    made inactive by the collision pass, at its own index, and the list
    left is what remains once the inactive ones are dropped.  A key-down of
    Space keeps the list and may append one new bullet, [reset] empties the
    list, and no other event touches it. *)
Theorem bullet_active_flag :
  (forall b,
     let b' := Bullet.update WIDTH HEIGHT b in
     Bullet.active b' = true
     <-> Bullet.active b = true
         /\ ~ (Bullet.x b' < -10 \/ WIDTH + 10 < Bullet.x b'
               \/ Bullet.y b' < -10 \/ HEIGHT + 10 < Bullet.y b'))
  /\ (forall b g,
       let r := bulletTurn b g in
       (Bullet.active (fst r) = true
        <-> Bullet.active b = true
            /\ shotLands b g = false /\ woundLands b g = false)
       /\ Game.score (snd r)
          = (Game.score g + (if shotLands b g then 100 else 0))%Z
       /\ Game.lives (snd r)
          = (Game.lives g - (if woundLands b g then 1 else 0))%Z)
  /\ (forall dt g,
       exists shots,
         (length shots <= length (Game.enemies g))%nat
         /\ Forall (fun s => exists bx by_ d,
                              s = Bullet.new bx by_ d "enemy") shots
         /\ Forall2
              (fun b b' =>
                 b' = Bullet.update WIDTH HEIGHT b
                 \/ (Bullet.active (Bullet.update WIDTH HEIGHT b) = true
                     /\ b' = Bullet.deactivate
                               (Bullet.update WIDTH HEIGHT b)))
              (Game.bullets g ++ shots)
              (Game.bullets (handleCollisions (movePhase dt g)))
         /\ Game.bullets (update dt g)
            = filter Bullet.active
                (Game.bullets (handleCollisions (movePhase dt g))))
  /\ (forall ev g,
       Game.bullets (step ev g) = bulletsAfter WIDTH HEIGHT random ev g)
  /\ (forall bs who k,
       snd (Tank.tryShoot bs who k) = bs
       \/ exists b, snd (Tank.tryShoot bs who k) = bs ++ [b]
                    /\ Bullet.active b = true)
  /\ (forall b,
       Bullet.active b = false ->
       Bullet.active (Bullet.update WIDTH HEIGHT b) = false
       /\ Bullet.active (Bullet.deactivate b) = false
       /\ forall g, fst (bulletTurn b g) = b).
Proof.
  split; [| split; [| split; [| split; [| split]]]].
  - intros b b'. unfold b', Bullet.update. cbn.
    rewrite <- outside_spec.
    destruct (Bullet.outside _ _ _ _); split.
    + discriminate.
    + intros [_ H]. exfalso. apply H. reflexivity.
    + intros H. split; [exact H | discriminate].
    + tauto.
  - intros b g r.
    destruct (bulletTurn_spec b g) as (Tb & Ts & Tl & _). cbn zeta in *.
    fold r in Tb, Ts, Tl. split; [| split; assumption].
    rewrite Tb.
    destruct (shotLands b g), (woundLands b g); cbn;
      split; try discriminate; try tauto;
      intros (_ & H1 & H2); discriminate.
  - intros dt g.
    destruct (movePhase_fields dt g)
      as (p & es & shots & n' & Hm & _ & _ & Hlen & Hsh).
    destruct (handleCollisions_spec (movePhase dt g))
      as (_ & _ & _ & Hf & _).
    destruct (update_frame dt g) as (_ & _ & _ & Hb).
    cbn zeta in *. exists shots.
    split; [exact Hlen |]. split; [exact Hsh |]. split; [| exact Hb].
    apply (Forall2_map_left
             (fun b b' : Bullet.t =>
                b' = b \/ (Bullet.active b = true
                           /\ b' = Bullet.deactivate b))
             (Bullet.update WIDTH HEIGHT)).
    replace (map (Bullet.update WIDTH HEIGHT) (Game.bullets g ++ shots))
      with (Game.bullets (movePhase dt g)); [exact Hf |].
    rewrite Hm. reflexivity.
  - apply step_bullets.
  - intros bs who k.
    destruct (tryShoot_bullets bs who k) as [H | H]; [left; exact H |].
    right. eexists. split; [exact H | reflexivity].
  - intros b Hb. split; [apply update_stays, Hb |].
    split; [reflexivity |].
    intros g. unfold Game.bulletTurn. rewrite Hb. reflexivity.
Qed.

End GameProperties.

(** ** The theorems on the concrete scenes *)

Lemma Tank_update_in_field_witness :
  let k' := fst (Tank.update Scene.W Scene.H Scene.half 16 [] Scene.scout 0) in
  Tank.size k' = Tank.size Scene.scout
  /\ Tank.size Scene.scout / 2 <= Tank.x k' <= Scene.W - Tank.size Scene.scout / 2
  /\ Tank.size Scene.scout / 2 <= Tank.y k' <= Scene.H - Tank.size Scene.scout / 2.
Proof.
  apply (Tank_update_in_field Scene.W Scene.H Scene.half 16 [] Scene.scout 0);
    cbn; unfold Scene.W, Scene.H; lra.
Defined.

Lemma space_fires_whenever_cooled_witness :
  Game.running Scene.defeated = false
  /\ exists b,
       Game.bullets (Game.step Scene.W Scene.H Scene.half
                               (Game.KeyDown "Space") Scene.defeated)
       = Game.bullets Scene.defeated ++ [b]
       /\ Bullet.owner b = "player"%string /\ Bullet.active b = true.
Proof.
  split; [reflexivity |].
  destruct (space_fires_whenever_cooled Scene.W Scene.H Scene.half
              Scene.defeated eq_refl) as (Hb & Ho & Ha & _).
  eexists. split; [exact Hb | split; [exact Ho | exact Ha]].
Defined.

Lemma melee_on_field :
  Forall (fun e => Game.onField e = true) (Game.enemies Scene.melee).
Proof.
  repeat constructor; unfold Game.onField; apply Rltb_true; cbn; lra.
Qed.

Lemma score_counts_kills_witness :
  let g := Scene.melee in
  let g' := Game.handleCollisions Scene.W Scene.H Scene.half g in
  Game.score g'
  = (Game.score g
     + 100 * (Z.of_nat (length (Game.enemies g))
              - Z.of_nat (length (Game.enemies g'))))%Z.
Proof.
  apply (proj1 (score_counts_kills Scene.W Scene.H Scene.half)
               Scene.melee melee_on_field).
Defined.

Lemma player_bullet_hits_once_witness :
  let g := Scene.melee in
  let g' := Game.bulletPhase Scene.W Scene.H Scene.half g in
  (Game.score g'
   <= Game.score g + 100 * Z.of_nat (length (Game.enemies g)))%Z
  /\ Game.enemies g' = volley (Game.bullets g) (Game.enemies g).
Proof.
  destruct (player_bullet_hits_once Scene.W Scene.H Scene.half)
    as (_ & _ & Hscore & _ & Hroster).
  split; [apply (Hscore Scene.melee melee_on_field) |].
  apply (Hroster Scene.melee melee_on_field).
Defined.

Lemma bullet_active_flag_witness :
  let b := Bullet.deactivate Scene.shell in
  Bullet.active (Bullet.update Scene.W Scene.H b) = false
  /\ fst (Game.bulletTurn Scene.W Scene.H Scene.half b (Scene.duel 3)) = b
  /\ Game.bullets (Game.step Scene.W Scene.H Scene.half Game.ClickPause
                             (Scene.duel 3))
     = [Scene.shell; Scene.shell'].
Proof.
  destruct (bullet_active_flag Scene.W Scene.H Scene.half)
    as (_ & _ & _ & Hstep & _ & Hoff).
  destruct (Hoff (Bullet.deactivate Scene.shell) eq_refl) as (H1 & _ & H3).
  split; [exact H1 | split; [apply H3 |]].
  rewrite Hstep. reflexivity.
Defined.

Lemma game_over_until_resumed_witness :
  Game.running (Game.step Scene.W Scene.H Scene.half Game.ClickStart
                          Scene.defeated) = true.
Proof.
  apply (proj1 (proj2 (proj2 (proj2 (proj2
           (game_over_until_resumed Scene.W Scene.H Scene.half)))))
           Game.ClickStart Scene.defeated); reflexivity.
Defined.

(** The pass of [handleCollisions] on the melee: the enemy on the player is
    rammed, the other one is shot, 200 points are scored for the two enemies
    removed and one life is lost. *)
Example melee_outcome :
  let g' := Game.handleCollisions Scene.W Scene.H Scene.half Scene.melee in
  Game.score g' = 200%Z /\ Game.lives g' = 2%Z /\ Game.enemies g' = []
  /\ map Bullet.active (Game.bullets g') = [false].
Proof.
  cbv zeta. unfold Game.handleCollisions.
  stage_ram. unfold Game.bulletPhase. cbn [Game.bullets Game.bulletsLoop].
  stage_turn. cbn. repeat split.
Qed.




(** C2 fails on the code.  The same call of [update] with one life left:
    the first bullet takes the last life and ends the game, the scan goes
    on, and the second bullet takes a life again, which leaves the counter
    at -1. *)
Lemma lives_below_zero :
  Game.lives (Scene.duel 1) = 1%Z
  /\ Game.lives (Game.update Scene.W Scene.H Scene.half 16 (Scene.duel 1))
     = (-1)%Z.
Proof.
  split; [reflexivity |].
  unfold Game.update. stage_move.
  match goal with
  | |- context [Game.handleCollisions _ _ _ ?m] =>
      let E := fresh in
      eassert (E : m = _) by (run; reflexivity); rewrite E; clear E
  end.
  unfold Game.handleCollisions. stage_ram.
  unfold Game.bulletPhase. cbn [Game.bullets Game.bulletsLoop].
  stage_turn. stage_turn. reflexivity.
Qed.

(** C3 as stated fails: from the ended game, with no lives and no reset, a
    click on the start button sets [running] and the next frame moves the
    player. *)
Lemma start_resumes_after_game_over :
  let g := Scene.defeated in
  let g1 := Game.step Scene.W Scene.H Scene.half Game.ClickStart g in
  let g2 :=
    Game.run Scene.W Scene.H Scene.half [Game.ClickStart; Game.Frame 16] g in
  Game.lives g = 0%Z /\ Game.running g = false
  /\ resets Game.ClickStart = false
  /\ Game.running g1 = true
  /\ Tank.y (Game.player g) = 520
  /\ Tank.y (Game.player g2) = 520 - 2.6.
Proof.
  cbv zeta.
  repeat (split; [first [reflexivity | cbn; unfold Scene.H; lra] |]).
  cbn [Game.run fold_left Game.step]. unfold Game.loop.
  stage (Game.start Scene.defeated).
  cbn [Game.running Game.set_lastTime Game.lastTime Game.input Game.player
       Game.enemies Game.bullets Game.particles Game.score Game.lives
       Game.statusText Game.scoreText Game.livesText Game.rng].
  unfold Game.update. stage_move.
  match goal with
  | |- context [Game.handleCollisions _ _ _ ?m] =>
      let E := fresh in
      eassert (E : m = _) by (run; reflexivity); rewrite E; clear E
  end.
  unfold Game.handleCollisions. stage_ram.
  unfold Game.bulletPhase. cbn. lra.
Qed.

(** ** The further theorems on the concrete scenes *)

Lemma half_fair : fair Scene.half.
Proof. intros n. unfold Scene.half. lra. Qed.

Lemma hero_in_field : inField Scene.W Scene.H Scene.hero.
Proof. unfold inField. cbn. unfold Scene.W, Scene.H. lra. Qed.

Lemma defeated_on_field :
  Forall (fun e => Game.onField e = true) (Game.enemies Scene.defeated).
Proof.
  repeat constructor; unfold Game.onField; apply Rltb_true; cbn; lra.
Qed.

Lemma held_keys_stay_a_set_witness :
  NoDup (Input.keydown ["ArrowUp"%string] "Space")
  /\ NoDup (Input.keyup ["ArrowUp"%string] "Space")
  /\ Input.keydown (Input.keydown ["ArrowUp"%string] "Space") "Space"
     = Input.keydown ["ArrowUp"%string] "Space".
Proof.
  apply (held_keys_stay_a_set ["ArrowUp"%string] "Space").
  constructor; [intros [] | constructor].
Defined.

Lemma bullet_leaves_field_witness :
  Bullet.active (flight Scene.W Scene.H 206 Scene.shell) = false.
Proof.
  apply (bullet_leaves_field Scene.W Scene.H 206 Scene.shell).
  - reflexivity.
  - cbn. unfold Scene.W. lra.
  - cbn. unfold Scene.H. lra.
  - rewrite INR_IZR_INZ. change (Z.of_nat 206) with 206%Z.
    unfold Scene.W. lra.
  - rewrite INR_IZR_INZ. change (Z.of_nat 206) with 206%Z.
    unfold Scene.H. lra.
Defined.

Lemma tryShoot_reload_witness :
  let shot := Tank.tryShoot [] "player" Scene.hero in
  length (snd shot) = 1%nat
  /\ Tank.tryShoot (snd shot) "player" (fst shot) = (fst shot, snd shot).
Proof.
  assert (Hc : Tank.cooldown Scene.hero <= 0) by (cbn; lra).
  destruct (proj2 (tryShoot_reload Scene.W Scene.H Scene.half 16 [] 0%nat
                     [] "player" Scene.hero) Hc) as (H1 & H2 & _).
  split; [exact H1 | exact H2].
Defined.

Lemma tryShoot_muzzle_witness :
  exists b,
    Tank.tryShoot [] "player" Scene.hero
    = (Tank.set_cooldown 40 Scene.hero, [b])
    /\ hypot (Bullet.x b - Tank.x Scene.hero) (Bullet.y b - Tank.y Scene.hero)
       = 0.7 * Tank.size Scene.hero.
Proof.
  assert (Hc : Tank.cooldown Scene.hero <= 0) by (cbn; lra).
  assert (Hs : 0 <= Tank.size Scene.hero) by (cbn; lra).
  destruct (tryShoot_muzzle [] "player" Scene.hero Hc Hs)
    as (b & H1 & H2 & _).
  exists b. split; [exact H1 | exact H2].
Defined.

Lemma handleAI_step_witness :
  let k' := fst (Tank.handleAI Scene.half 16 Scene.scout 0) in
  hypot (Tank.x k' - Tank.x Scene.scout) (Tank.y k' - Tank.y Scene.scout)
  = 0.8 * Tank.speed Scene.scout.
Proof.
  assert (Hs : 0 <= Tank.speed Scene.scout)
    by (cbn; unfold ENEMY_SPEED; lra).
  apply (handleAI_step Scene.half 16 Scene.scout 0 half_fair Hs).
Defined.

Lemma handlePlayerInput_heading_witness :
  Tank.angle (Tank.handlePlayerInput ["ArrowRight"%string] Scene.hero) = 0
  /\ Tank.angle (Tank.handlePlayerInput ["ArrowUp"%string] Scene.hero)
     = - (PI / 2).
Proof.
  split.
  - apply (proj1 (handlePlayerInput_heading ["ArrowRight"%string]
                    Scene.hero)); reflexivity.
  - apply (proj1 (proj2 (proj2 (handlePlayerInput_heading
                                  ["ArrowUp"%string] Scene.hero))));
      reflexivity.
Defined.

Lemma Tank_update_speed_limit_witness :
  let k' := fst (Tank.update Scene.W Scene.H Scene.half 16
                   ["ArrowUp"%string] Scene.hero 0) in
  hypot (Tank.x k' - Tank.x Scene.hero) (Tank.y k' - Tank.y Scene.hero)
  <= Tank.speed Scene.hero.
Proof.
  assert (Hs : 0 <= Tank.speed Scene.hero)
    by (cbn; unfold PLAYER_SPEED; lra).
  apply (Tank_update_speed_limit Scene.W Scene.H Scene.half 16
           ["ArrowUp"%string] Scene.hero 0 hero_in_field Hs).
Defined.

Lemma player_idle_stays_witness :
  Tank.update Scene.W Scene.H Scene.half 16
    ["ArrowLeft"%string; "ArrowRight"%string] Scene.hero 0
  = (Tank.set_cooldown (Rmax 0 (Tank.cooldown Scene.hero - 16)) Scene.hero,
     0%nat).
Proof.
  apply (player_idle_stays Scene.W Scene.H Scene.half 16
           ["ArrowLeft"%string; "ArrowRight"%string] Scene.hero 0 eq_refl
           hero_in_field).
  - cbv [Tank.keyDx]. cbn. lra.
  - reflexivity.
Defined.

Lemma spawnEnemies_roster_witness :
  let g' := Game.spawnEnemies Scene.W Scene.H Scene.half Scene.defeated in
  length (Game.enemies g') = 5%nat
  /\ Forall (freshEnemy Scene.W Scene.H) (Game.enemies g').
Proof.
  assert (HW : 120 <= Scene.W) by (unfold Scene.W; lra).
  assert (HH : 120 <= Scene.H) by (unfold Scene.H; lra).
  destruct (spawnEnemies_roster Scene.W Scene.H Scene.half Scene.defeated
              half_fair HW HH) as (H1 & H2 & _).
  split; [exact H1 | exact H2].
Defined.

Lemma addParticles_burst_witness :
  exists burst,
    Game.particles (Game.addParticles Scene.half 400 520 "#5ec8ff"
                      Scene.defeated)
    = Game.particles Scene.defeated ++ burst
    /\ length burst = 10%nat.
Proof.
  destruct (addParticles_burst Scene.half 400 520 "#5ec8ff" Scene.defeated
              half_fair) as (burst & H1 & H2 & _).
  exists burst. split; [exact H1 | exact H2].
Defined.

Lemma handleCollisions_quiet_witness :
  Game.handleCollisions Scene.W Scene.H Scene.half Scene.defeated
  = Game.syncHUD Scene.defeated.
Proof.
  apply (handleCollisions_quiet Scene.W Scene.H Scene.half Scene.defeated).
  - run. reflexivity.
  - exact defeated_on_field.
  - constructor.
Defined.

Lemma ram_outcome_witness :
  let g' := Game.ramPhase Scene.W Scene.H Scene.half Scene.melee in
  Game.lives g' = 2%Z
  /\ Tank.x (Game.player g') = Scene.W / 2
  /\ Game.statusText g' = Game.Rammed.
Proof.
  assert (Hr : existsb (Game.ramTest (Game.player Scene.melee))
                 (Game.enemies Scene.melee) = true)
    by (run; reflexivity).
  destruct (ram_outcome Scene.W Scene.H Scene.half Scene.melee Hr)
    as (H1 & H2 & _).
  destruct (H2 ltac:(cbn; lia)) as (P1 & P2 & _).
  cbv zeta. rewrite H1, P1, P2. repeat split.
Defined.

Lemma reachable_tanks_on_field_witness :
  placed Scene.W Scene.H
    (Game.run Scene.W Scene.H Scene.half
       [Game.ClickStart; Game.Frame 16; Game.KeyDown "Space"]
       (Game.new Scene.W Scene.H Scene.half)).
Proof.
  assert (HW : 120 <= Scene.W) by (unfold Scene.W; lra).
  assert (HH : 120 <= Scene.H) by (unfold Scene.H; lra).
  apply (reachable_tanks_on_field Scene.W Scene.H Scene.half
           [Game.ClickStart; Game.Frame 16; Game.KeyDown "Space"]
           half_fair HW HH).
Defined.

Lemma bullets_hit_the_other_side_witness :
  Game.score (snd (Game.bulletTurn Scene.W Scene.H Scene.half Scene.shell
                     (Scene.duel 3)))
  = Game.score (Scene.duel 3).
Proof.
  apply (proj2 (bullets_hit_the_other_side Scene.W Scene.H Scene.half
                  Scene.shell (Scene.duel 3))).
  reflexivity.
Defined.
